(** * VAECache: the embedding cache pipeline of helpers/caching/vae.py

    A shallow embedding of the [VAECache] class: cache-key derivation,
    backlog discovery, batched encoding and batched persistence, with the
    storage backend, the VAE and the random generator as explicit state. *)

From Stdlib Require Import ZArith Ascii String List Lia Permutation.
From stdpp Require Import base option list gmap sets strings pretty.

Local Open Scope Z_scope.

(** ** Python [str] primitives used by the code *)

Module pystr.

(** [s[n:]] for a non-negative [n]. *)
Fixpoint drop (n : nat) (s : string) : string :=
  match n, s with
  | O, _ => s
  | S _, EmptyString => EmptyString
  | S k, String _ r => drop k r
  end.

(** [s[:n]] for a non-negative [n]. *)
Fixpoint take (n : nat) (s : string) : string :=
  match n, s with
  | O, _ => EmptyString
  | S _, EmptyString => EmptyString
  | S k, String a r => String a (take k r)
  end.

(** [s.rfind(c)]: the highest index holding [c], or [-1]. *)
Fixpoint rfind (c : ascii) (s : string) : Z :=
  match s with
  | EmptyString => -1
  | String a r =>
      let k := rfind c r in
      if 0 <=? k then k + 1
      else if Ascii.eqb a c then 0 else -1
  end.

(** [s[i:i+1]], the empty string when [i] is out of range. *)
Definition char_at (s : string) (i : Z) : string :=
  take 1 (drop (Z.to_nat i) s).

Definition startswith (s pre : string) : bool := String.prefix pre s.

Definition endswith (s suf : string) : bool :=
  let n := String.length s in
  let m := String.length suf in
  (m <=? n)%nat && String.eqb (drop (n - m) s) suf.

(** [c in s] for a one-character [c]. *)
Fixpoint contains (c : ascii) (s : string) : bool :=
  match s with
  | EmptyString => false
  | String a r => Ascii.eqb a c || contains c r
  end.

(** [c * n]. *)
Fixpoint replicate (n : nat) (c : ascii) : string :=
  match n with
  | O => EmptyString
  | S k => String c (replicate k c)
  end.

(** Every character of [s] is a dot. *)
Fixpoint all_dots (s : string) : bool :=
  match s with
  | EmptyString => true
  | String a r => Ascii.eqb a "." && all_dots r
  end.

End pystr.

(** ** [os.path] on a POSIX host ([posixpath] and [genericpath._splitext]) *)

Module os_path.
Import pystr.

Definition sep : ascii := "/"%char.
Definition extsep : ascii := "."%char.

(** [i = p.rfind(sep) + 1; return p[i:]] *)
Definition basename (p : string) : string :=
  let i := rfind sep p + 1 in
  drop (Z.to_nat i) p.

(** The [while filenameIndex < dotIndex] loop of [_splitext], which looks
    for a character other than the dot before the last dot; [todo] is
    [dotIndex - filenameIndex]. *)
Fixpoint skip_leading_dots (p : string) (filenameIndex : Z) (todo : nat) : bool :=
  match todo with
  | O => false
  | S k =>
      if negb (String.eqb (char_at p filenameIndex) (String extsep EmptyString))
      then true
      else skip_leading_dots p (filenameIndex + 1) k
  end.

Definition splitext (p : string) : string * string :=
  let sepIndex := rfind sep p in
  let dotIndex := rfind extsep p in
  if (sepIndex <? dotIndex)
     && skip_leading_dots p (sepIndex + 1) (Z.to_nat (dotIndex - (sepIndex + 1)))
  then (take (Z.to_nat dotIndex) p, drop (Z.to_nat dotIndex) p)
  else (p, EmptyString).

(** [os.path.join(a, b)] with one component after the root. *)
Definition join (a b : string) : string :=
  if startswith b (String sep EmptyString) then b
  else if String.eqb a EmptyString || endswith a (String sep EmptyString)
       then a +:+ b
       else a +:+ String sep EmptyString +:+ b.

End os_path.

(** ** Exceptions and the state of the collaborators *)

(** The exception classes the pipeline can meet.  [OSError] stands for the
    class and its subclasses ([FileNotFoundError], PIL's
    [UnidentifiedImageError]); [ValueError] stands for any class that is
    neither an [OSError] nor a [RuntimeError]. *)
Inductive exn : Set :=
| OSError | RuntimeError | ValueError | IndexError | AttributeError | UnpicklingError.

Inductive result (A : Type) : Type :=
| Ok (a : A)
| Raise (e : exn).
Arguments Ok {A} a.
Arguments Raise {A} e.

(** [except (OSError, RuntimeError)] *)
Definition failure_policy_catches (e : exn) : bool :=
  match e with
  | OSError | RuntimeError => true
  | _ => false
  end.

(** What the storage backend holds under a path.  [Image]: the stored
    bytes of a source item; [Tensor]: the latent of one item. *)
Inductive File (Image Tensor : Type) : Type :=
| ImageFile (content : Image)
| TensorFile (t : Tensor).
Arguments ImageFile {Image Tensor} content.
Arguments TensorFile {Image Tensor} t.

(** The mutable world around a [VAECache]: the storage backend, the log
    of the VAE's [encode] calls, the log of [write_batch] calls and the
    state of the random generators.  [Pixel]: a decoded and normalised
    pixel tensor. *)
Record World (Image Pixel Tensor : Type) : Type := mkWorld {
  files : gmap string (File Image Tensor);
  vae_calls : list (list Pixel);
  flushes : list (list string * list Tensor);
  rng : nat
}.
Arguments mkWorld {Image Pixel Tensor} files vae_calls flushes rng.
Arguments files {Image Pixel Tensor} w.
Arguments vae_calls {Image Pixel Tensor} w.
Arguments flushes {Image Pixel Tensor} w.
Arguments rng {Image Pixel Tensor} w.

(** The fields of a [VAECache] object; [data_backend], [vae] and
    [accelerator] are references to the collaborators, whose state lives in
    the [World].  [local_unprocessed_files] is unset until
    [split_cache_between_processes] has run. *)
Record VAECache : Type := mkVAECache {
  data_backend : nat;
  vae : nat;
  accelerator : nat;
  cache_dir : string;
  resolution : Z;
  delete_problematic_images : bool;
  write_batch_size : Z;
  local_unprocessed_files : option (list string)
}.

(** The collaborators the class is written against: the decode and
    normalise step, the VAE, torch, [random], the listing of the storage
    backend and the accelerator.  [Scalar] is the type of
    [vae.config.scaling_factor]. *)
Class Collaborators (Image Pixel Tensor Scalar : Type) : Type := {
  (** [read_image], [MultiaspectImage.prepare_image] and the image
      transform, at a resolution. *)
  decode_image : Image -> Z -> result Pixel;
  (** [vae.encode(batch).latent_dist.sample()[i]] at a generator state. *)
  vae_latent : nat -> list Pixel -> nat -> Tensor;
  (** [t * s] on one item's latent. *)
  tmul : Tensor -> Scalar -> Tensor;
  (** [vae.config.scaling_factor] *)
  scaling_factor : Scalar;
  (** [t.squeeze().to(accelerator.device, dtype=vae.dtype)] *)
  squeeze_to : Tensor -> Tensor;
  (** [random.shuffle] at a generator state. *)
  shuffle : nat -> list string -> list string;
  (** [data_backend.list_files(str_pattern, instance_data_root)]: the
      [(subdir, _, files)] triples without their unused second component. *)
  list_files : gmap string (File Image Tensor) -> string -> string -> list (string * list string);
  (** [accelerator.split_between_processes] *)
  split_between_processes : list string -> list string
}.

Section Pipeline.

Context {Image Pixel Tensor Scalar : Type}.
Context {collab : Collaborators Image Pixel Tensor Scalar}.

Local Abbreviation World := (World Image Pixel Tensor).
Local Abbreviation File := (File Image Tensor).

(** *** The state and exception monad *)

Definition M (A : Type) : Type := World -> World * result A.

Definition ret {A} (a : A) : M A := fun w => (w, Ok a).

Definition bind {A B} (m : M A) (k : A -> M B) : M B :=
  fun w =>
    match m w with
    | (w', Ok a) => k a w'
    | (w', Raise e) => (w', Raise e)
    end.

Definition raise {A} (e : exn) : M A := fun w => (w, Raise e).

(** [try: body except classes: handler] *)
Definition try_except {A} (body : M A) (classes : exn -> bool) (handler : exn -> M A) : M A :=
  fun w =>
    match body w with
    | (w', Raise e) => if classes e then handler e w' else (w', Raise e)
    | r => r
    end.

Notation "'let*' x ':=' m 'in' k" := (bind m (fun x => k))
  (at level 10, x pattern, m at level 100, k at level 200, only parsing).

(** *** The storage backend, in memory *)

(** Modelled from the spec: [helpers.data_backend] is not among the
    sources; [exists(path) -> bool] of the Storage Backend, on a backend
    that is a finite map from paths to files. *)
Definition backend_exists (path : string) : M bool :=
  fun w => (w, Ok (bool_decide (is_Some (files w !! path)))).

(** Modelled from the spec: [torch_load], the backend's [deserialize] of
    what is stored under a path; a path that holds no stored tensor makes
    it raise. *)
Definition backend_torch_load (path : string) : M Tensor :=
  fun w =>
    match files w !! path with
    | Some (TensorFile t) => (w, Ok t)
    | Some (ImageFile _) => (w, Raise UnpicklingError)
    | None => (w, Raise OSError)
    end.

(** Modelled from the spec: [torch_save], the backend's [serialize] of one
    value under a path. *)
Definition backend_torch_save (data : Tensor) (path : string) : M unit :=
  fun w =>
    (mkWorld (<[path := TensorFile data]> (files w)) (vae_calls w) (flushes w) (rng w),
     Ok tt).

(** Modelled from the spec: [delete(path)] of the Storage Backend. *)
Definition backend_delete (path : string) : M unit :=
  fun w =>
    (mkWorld (delete path (files w)) (vae_calls w) (flushes w) (rng w), Ok tt).

(** Modelled from the spec: what [writeBatch] persists, all pairs, keys
    not reordered relative to embeddings:
    [for filepath, data in zip(filepaths, data_list): write(filepath, data)].
    Which pair stays when a key occurs twice is not said there; writing
    the pairs one after the other is one choice. *)
Fixpoint store_all (filepaths : list string) (data_list : list Tensor)
    (fs : gmap string File) : gmap string File :=
  match filepaths, data_list with
  | filepath :: filepaths', data :: data_list' =>
      store_all filepaths' data_list' (<[filepath := TensorFile data]> fs)
  | _, _ => fs
  end.

(** Modelled from the spec: [write_batch] of the Storage Backend; every
    call is logged in [flushes]. *)
Definition backend_write_batch (filepaths : list string) (data_list : list Tensor) : M unit :=
  fun w =>
    (mkWorld (store_all filepaths data_list (files w)) (vae_calls w)
       (flushes w ++ [(filepaths, data_list)]) (rng w), Ok tt).

(** [read_image(filepath)], [prepare_image(image, resolution)] and the
    transform: the body of the [try] block up to the two appends.  A path
    that is missing or holds no image makes [read_image] raise an
    [OSError] ([FileNotFoundError], [UnidentifiedImageError]). *)
Definition load_pixel_values (resolution : Z) (filepath : string) : M Pixel :=
  fun w =>
    match files w !! filepath with
    | Some (ImageFile content) => (w, decode_image content resolution)
    | Some (TensorFile _) => (w, Raise OSError)
    | None => (w, Raise OSError)
    end.

(** *** The VAE and torch *)

(** [torch.stack(tensors)] raises on an empty list.  The tensors of one
    list are taken to have one shape: shapes are not part of the model, so
    the [RuntimeError] of [torch.stack] on tensors of different shapes is
    outside it. *)
Definition torch_stack {A} (tensors : list A) : M (list A) :=
  match tensors with
  | [] => raise RuntimeError
  | _ => ret tensors
  end.

(** [vae.encode(pixel_values_tensor).latent_dist.sample()] *)
Definition vae_encode_sample (pixel_values_tensor : list Pixel) : M (list Tensor) :=
  fun w =>
    (mkWorld (files w) (vae_calls w ++ [pixel_values_tensor]) (flushes w) (S (rng w)),
     Ok (map (vae_latent (rng w) pixel_values_tensor) (seq 0 (length pixel_values_tensor)))).

(** [latents[i]] *)
Definition getitem (latents : list Tensor) (i : nat) : M Tensor :=
  match latents !! i with
  | Some t => ret t
  | None => raise IndexError
  end.

(** [latents[i] = v] *)
Definition setitem (latents : list Tensor) (i : nat) (v : Tensor) : M (list Tensor) :=
  if decide (i < length latents)%nat then ret (<[i := v]> latents)
  else raise IndexError.

(** *** The cache object *)

Definition set_local_unprocessed_files (self : VAECache) (l : list string) : VAECache :=
  mkVAECache (data_backend self) (vae self) (accelerator self) (cache_dir self)
    (resolution self) (delete_problematic_images self) (write_batch_size self) (Some l).

Definition _generate_filename (self : VAECache) (filepath : string) : string * string :=
  let base_filename := (os_path.splitext (os_path.basename filepath)).1 +:+ ".pt" in
  let full_filename := os_path.join (cache_dir self) base_filename in
  (full_filename, base_filename).

Definition save_to_cache (filename : string) (embeddings : Tensor) : M unit :=
  backend_torch_save embeddings filename.

Definition load_from_cache (filename : string) : M Tensor :=
  backend_torch_load filename.

(** [file.endswith((".png", ".jpg", ".jpeg"))] *)
Definition has_image_suffix (file : string) : bool :=
  pystr.endswith file ".png" || pystr.endswith file ".jpg" || pystr.endswith file ".jpeg".

Definition image_pattern : string := "*.[jJpP][pPnN][gG]".

(** The first set comprehension of [discover_unprocessed_files]. *)
Definition all_files (fs : gmap string File) (directory : string) : gset string :=
  list_to_set
    (flat_map
       (fun '(subdir, names) =>
          map (os_path.join subdir) (List.filter has_image_suffix names))
       (list_files fs image_pattern directory)).

Definition discover_unprocessed_files (self : VAECache) (directory : string) : M (list string) :=
  fun w =>
    let all := all_files (files w) directory in
    let processed_files : gset (string * string) :=
      set_map (_generate_filename self) all in
    let unprocessed_files : gset string :=
      filter (fun file => _generate_filename self file ∉ processed_files) all in
    (w, Ok (elements unprocessed_files)).

(** The [for i, filepath in enumerate(filepaths)] loop. *)
Fixpoint encode_loop (self : VAECache) (i : nat) (filepaths : list string)
    (latents : list Tensor) (full_filenames : list string) (latents_list : list Tensor)
  : M (list string * list Tensor) :=
  match filepaths with
  | [] => ret (full_filenames, latents_list)
  | filepath :: rest =>
      let full_filename := (_generate_filename self filepath).1 in
      let* cached := backend_exists full_filename in
      let* latents' :=
        (if cached : bool
         then let* v := load_from_cache full_filename in setitem latents i v
         else ret latents) in
      let* li := getitem latents' i in
      encode_loop self (S i) rest latents'
        (full_filenames ++ [full_filename]) (latents_list ++ [squeeze_to li])
  end.

Definition encode_image_batch (self : VAECache) (pixel_values_batch : list Pixel)
    (filepaths : list string) : M (list string * list Tensor) :=
  let* pixel_values_tensor := torch_stack pixel_values_batch in
  let* sampled := vae_encode_sample pixel_values_tensor in
  let latents := map (fun t => tmul t scaling_factor) sampled in
  let* (full_filenames, latents_list) := encode_loop self 0 filepaths latents [] [] in
  let* stacked := torch_stack latents_list in
  ret (full_filenames, stacked).

Definition encode_image (self : VAECache) (pixel_values : Pixel) (filepath : string) : M Tensor :=
  let* (full_filenames, latents) := encode_image_batch self [pixel_values] [filepath] in
  getitem latents 0.

(** The spec's wording of [encode_image]: the batch path with a batch of
    one, and the first of the embeddings it returns. *)
Definition encode_batch_of_one (self : VAECache) (pixel_values : Pixel)
    (filepath : string) : M Tensor :=
  fun w =>
    match encode_image_batch self [pixel_values] [filepath] w with
    | (w', Ok (_, embeddings)) =>
        (w', match embeddings with
             | first :: _ => Ok first
             | [] => Raise IndexError
             end)
    | (w', Raise e) => (w', Raise e)
    end.

Definition split_cache_between_processes (self : VAECache) : World -> VAECache * (World * result unit) :=
  fun w =>
    match discover_unprocessed_files self (cache_dir self) w with
    | (w', Ok all_unprocessed_files) =>
        (set_local_unprocessed_files self (split_between_processes all_unprocessed_files),
         (w', Ok tt))
    | (w', Raise e) => (self, (w', Raise e))
    end.

(** The set built from the [*.pt] listing of the cache directory. *)
Definition existing_pt_files (remote_cache_list : list (string * list string)) : gset string :=
  list_to_set
    (flat_map
       (fun '(subdir, names) =>
          map (fun file =>
                 let file := if negb (String.eqb subdir "")
                             then os_path.join subdir file else file in
                 (os_path.splitext file).1)
              names)
       remote_cache_list).

(** The paths the secondary scan appends, in order. *)
Definition scan_new_files (existing : gset string)
    (all_image_files : list (string * list string)) : list string :=
  flat_map
    (fun '(subdir, names) =>
       map (os_path.join subdir)
         (List.filter
            (fun file => negb (bool_decide ((os_path.splitext file).1 ∈ existing)))
            names))
    all_image_files.

(** What the secondary scan of [process_directory] appends: the listed
    image files whose stem is not the stem of a listed cache file. *)
Definition secondary_scan (self : VAECache) (directory : string)
    (fs : gmap string File) : list string :=
  let remote_cache_list := list_files fs "*.pt" (cache_dir self) in
  let existing := existing_pt_files remote_cache_list in
  let all_image_files := list_files fs image_pattern directory in
  scan_new_files existing all_image_files.

(** The [except (OSError, RuntimeError)] handler; [None] is its [continue]. *)
Definition failure_policy (self : VAECache) (filepath : string) (e : exn) : M (option Pixel) :=
  let* _ := (if delete_problematic_images self
             then backend_delete filepath else ret tt) in
  ret None.

(** The main [for filepath in files_to_process] loop; it returns the two
    batch lists as they are when the list is exhausted. *)
Fixpoint process_files (self : VAECache) (files_to_process : list string)
    (current_batch_filepaths : list string) (batch_pixel_values : list Pixel)
  : M (list string * list Pixel) :=
  match files_to_process with
  | [] => ret (current_batch_filepaths, batch_pixel_values)
  | filepath :: rest =>
      let full_filename := (_generate_filename self filepath).1 in
      let* cached := backend_exists full_filename in
      if cached : bool
      then process_files self rest current_batch_filepaths batch_pixel_values
      else
        let* prepared :=
          try_except
            (let* pixel_values := load_pixel_values (resolution self) filepath in
             ret (Some pixel_values))
            failure_policy_catches
            (failure_policy self filepath) in
        match prepared with
        | None => process_files self rest current_batch_filepaths batch_pixel_values
        | Some pixel_values =>
            let current_batch_filepaths := current_batch_filepaths ++ [filepath] in
            let batch_pixel_values := batch_pixel_values ++ [pixel_values] in
            if Z.of_nat (length batch_pixel_values) =? write_batch_size self
            then
              let* (full_filenames, batch_latents) :=
                encode_image_batch self batch_pixel_values current_batch_filepaths in
              let* _ := backend_write_batch full_filenames batch_latents in
              process_files self rest [] []
            else process_files self rest current_batch_filepaths batch_pixel_values
        end
  end.

(** The flush after the loop: [encode_image_batch] is given
    [files_to_process], as in the source. *)
Definition flush_remaining (self : VAECache) (files_to_process : list string)
    (batch_pixel_values : list Pixel) : M unit :=
  match batch_pixel_values with
  | [] => ret tt
  | _ =>
      let* (full_filenames, batch_latents) :=
        encode_image_batch self batch_pixel_values files_to_process in
      backend_write_batch full_filenames batch_latents
  end.

(** [files_to_process] is the list object held by
    [self.local_unprocessed_files]: the appends and the shuffle are seen
    through the field, whatever happens afterwards. *)
Definition process_directory (self : VAECache) (directory : string)
  : World -> VAECache * (World * result unit) :=
  fun w =>
    match local_unprocessed_files self with
    | None => (self, (w, Raise AttributeError))
    | Some files_to_process =>
        let files_to_process :=
          files_to_process ++ secondary_scan self directory (files w) in
        let files_to_process := shuffle (rng w) files_to_process in
        let self := set_local_unprocessed_files self files_to_process in
        let w := mkWorld (files w) (vae_calls w) (flushes w) (S (rng w)) in
        (self,
         (let* (current_batch_filepaths, batch_pixel_values) :=
            process_files self files_to_process [] [] in
          flush_remaining self files_to_process batch_pixel_values) w)
    end.

(** *** Vocabulary for the statements about whole runs *)

(** The decode step of an item raises an exception that the failure policy
    catches: the path is missing, holds a tensor, or holds an image whose
    decoding raises an [OSError] or a [RuntimeError]. *)
Definition undecodable (self : VAECache) (fs : gmap string File) (filepath : string) : Prop :=
  match fs !! filepath with
  | Some (ImageFile content) =>
      exists e, decode_image content (resolution self) = Raise e
                /\ failure_policy_catches e = true
  | _ => True
  end.

(** Nothing is left to encode for an item: its cache key exists, or its
    decode step fails in a way the failure policy absorbs. *)
Definition settled (self : VAECache) (fs : gmap string File) (filepath : string) : Prop :=
  is_Some (fs !! (_generate_filename self filepath).1) \/ undecodable self fs filepath.

(** How a run changes the backend: a path keeps its file, receives a
    tensor, or is deleted, the last only for paths that are not cache
    records. *)
Definition evolves (fs fs' : gmap string File) : Prop :=
  forall k : string,
    fs' !! k = fs !! k
    \/ (exists t, fs' !! k = Some (TensorFile t))
    \/ (fs' !! k = None /\ pystr.endswith k ".pt" = false).

(** What a run over [items] may have done to the backend: a path keeps
    its file, or it is the cache key of an item and holds a tensor, or it
    is an item that was deleted, the last only with
    [delete_problematic_images] set. *)
Definition touches (self : VAECache) (items : list string)
    (fs fs' : gmap string File) : Prop :=
  forall k : string,
    fs' !! k = fs !! k
    \/ (exists fp t, fp ∈ items /\ k = (_generate_filename self fp).1
                     /\ fs' !! k = Some (TensorFile t))
    \/ (delete_problematic_images self = true /\ k ∈ items /\ fs' !! k = None).

(** The path holds an image that decodes. *)
Definition decodable (self : VAECache) (fs : gmap string File) (filepath : string) : Prop :=
  match fs !! filepath with
  | Some (ImageFile content) =>
      match decode_image content (resolution self) with
      | Ok _ => True
      | Raise _ => False
      end
  | _ => False
  end.

(** An item that the loop will decode and put in the batch: it decodes and
    its cache key has no entry. *)
Definition fresh (self : VAECache) (fs : gmap string File) (filepath : string) : Prop :=
  fs !! (_generate_filename self filepath).1 = None /\ decodable self fs filepath.

End Pipeline.

(** ** A concrete instance: an in-memory bucket with integer tensors *)

Module Sample.

(** An image is an integer: a non-negative one decodes to itself, [-1] is a
    truncated file ([OSError]) and any other negative one makes the decoder
    raise an exception of another class. *)
Definition decode (content : Z) (resolution : Z) : result Z :=
  if content <? 0
  then (if Z.eqb content (-1) then Raise OSError else Raise ValueError)
  else Ok content.

Definition latent (g : nat) (batch : list Z) (i : nat) : Z :=
  nth i batch 0 + 1000 * Z.of_nat g.

(** [fnmatch] against ["*.[jJpP][pPnN][gG]"]. *)
Definition matches_image_pattern (name : string) : bool :=
  match pystr.drop (String.length name - 4) name with
  | String d (String a (String b (String c EmptyString))) =>
      Ascii.eqb d "." && pystr.contains a "jJpP" && pystr.contains b "pPnN"
      && pystr.contains c "gG"
  | _ => false
  end.

Definition glob (pattern name : string) : bool :=
  if String.eqb pattern "*.pt" then pystr.endswith name ".pt"
  else matches_image_pattern name.

(** A flat listing: the keys under [root/] whose name matches the pattern,
    as one [(root, names)] entry. *)
Definition listing (fs : gmap string (File Z Z)) (pattern root : string)
  : list (string * list string) :=
  [(root,
    List.filter (glob pattern)
      (map os_path.basename
         (List.filter (fun k => pystr.startswith k (root +:+ "/"))
            (map fst (map_to_list fs)))))].

Definition collab : Collaborators Z Z Z Z := {|
  decode_image := decode;
  vae_latent := latent;
  tmul := Z.mul;
  scaling_factor := 2;
  squeeze_to := fun t => t;
  shuffle := fun _ l => rev l;
  list_files := listing;
  split_between_processes := fun l => l
|}.

Definition name (i : nat) : string := "imgs/f" +:+ pretty i +:+ ".png".

(** [n] decodable source images [imgs/f0.png] ... and no cache entry. *)
Definition source (n : nat) : gmap string (File Z Z) :=
  list_to_map (map (fun i => (name i, ImageFile (Z.of_nat i))) (seq 0 n)).

Definition world (fs : gmap string (File Z Z)) : World Z Z Z :=
  mkWorld fs [] [] 0%nat.

Definition cache (B : Z) (delete : bool) (l : option (list string)) : VAECache :=
  mkVAECache 0%nat 0%nat 0%nat "vae_cache" 1024 delete B l.

Definition run (self : VAECache) (w : World Z Z Z) :=
  process_directory (collab := collab) self "imgs" w.

(** One image whose decoding raises an exception that is not an [OSError]. *)
Definition broken : gmap string (File Z Z) := {["imgs/bad.png" := ImageFile (-2)]}.

(** One truncated image. *)
Definition truncated : gmap string (File Z Z) := {["imgs/bad.png" := ImageFile (-1)]}.

(** One image with an upper-case extension. *)
Definition upper : gmap string (File Z Z) := {["imgs/A.JPG" := ImageFile 5]}.

(** Two images, the first with a cache entry written by another worker. *)
Definition raced : gmap string (File Z Z) :=
  <["vae_cache/f0.pt" := TensorFile 99]> (source 2).

(** Two workers on one image: each has its own VAE log and generator
    state, and both see the bucket [source 1]. *)
Definition worker_a : World Z Z Z := mkWorld (source 1) [] [] 0%nat.
Definition worker_b : World Z Z Z := mkWorld (source 1) [] [] 7%nat.

(** The world of a worker after another worker has changed the bucket. *)
Definition sees (w : World Z Z Z) (bucket : gmap string (File Z Z)) : World Z Z Z :=
  mkWorld bucket (vae_calls w) (flushes w) (rng w).

(** A first run over three images that fit in one batch. *)
Definition first_run := run (cache 25 false (Some [])) (world (source 3)).

End Sample.

(** * Facts *)

(** ** Strings and paths *)

Section Strings.
Import pystr.

Lemma append_cons (x : ascii) (a b : string) : String x a +:+ b = String x (a +:+ b).
Proof. reflexivity. Qed.

Lemma append_nil_l (b : string) : "" +:+ b = b.
Proof. reflexivity. Qed.

Lemma append_assoc (a b c : string) : (a +:+ b) +:+ c = a +:+ b +:+ c.
Proof. induction a as [|x a IH]; [done |]. by rewrite !append_cons, IH. Qed.

Lemma append_nil_r (a : string) : a +:+ "" = a.
Proof. induction a as [|x a IH]; [done |]. by rewrite append_cons, IH. Qed.

Lemma length_append (a b : string) :
  String.length (a +:+ b) = (String.length a + String.length b)%nat.
Proof. induction a as [|x a IH]; [done |]. rewrite append_cons. simpl. by rewrite IH. Qed.

Lemma drop_append (a b : string) : drop (String.length a) (a +:+ b) = b.
Proof. induction a as [|x a IH]; [by destruct b |]. by rewrite append_cons. Qed.

Lemma take_append (a b : string) : take (String.length a) (a +:+ b) = a.
Proof. induction a as [|x a IH]; [by destruct b |]. rewrite append_cons. simpl. by rewrite IH. Qed.

Lemma contains_append (c : ascii) (a b : string) :
  contains c (a +:+ b) = contains c a || contains c b.
Proof.
  induction a as [|x a IH]; [done |].
  rewrite append_cons. simpl. by rewrite IH, orb_assoc.
Qed.

Lemma rfind_ge (c : ascii) (s : string) : -1 <= rfind c s.
Proof.
  induction s as [|a r IH]; simpl; [lia |].
  destruct (0 <=? rfind c r) eqn:E; [lia |]. destruct (Ascii.eqb a c); lia.
Qed.

Lemma rfind_absent (c : ascii) (s : string) :
  contains c s = false -> rfind c s = -1.
Proof.
  induction s as [|a r IH]; simpl; [done |].
  intros [Ha Hr]%orb_false_iff. rewrite (IH Hr), Ha. done.
Qed.

(** [rfind] points at the last occurrence. *)
Lemma rfind_present (c : ascii) (s : string) :
  contains c s = true ->
  exists pre post, s = pre +:+ String c post /\ contains c post = false
                   /\ rfind c s = Z.of_nat (String.length pre).
Proof.
  induction s as [|a r IH]; simpl; [done |].
  destruct (contains c r) eqn:Hr.
  - intros _. destruct (IH eq_refl) as (pre & post & -> & Hpost & Hk).
    exists (String a pre), post. rewrite Hk. simpl.
    destruct (0 <=? Z.of_nat (String.length pre)) eqn:E; [| lia].
    repeat split; [done | lia].
  - rewrite orb_false_r. intros Ha. apply Ascii.eqb_eq in Ha as ->.
    exists "", r. rewrite (rfind_absent _ _ Hr). simpl.
    by rewrite Ascii.eqb_refl.
Qed.

Lemma prefix_no_sep (c : ascii) (s t : string) :
  contains c s = false -> contains c t = false ->
  startswith (s +:+ t) (String c "") = false.
Proof.
  unfold startswith. destruct s as [|a s]; simpl.
  - destruct t as [|b t]; simpl; [done |].
    intros _ [Hb _]%orb_false_iff. destruct (ascii_dec c b) as [->|]; [| done].
    by rewrite Ascii.eqb_refl in Hb.
  - intros [Ha _]%orb_false_iff _. destruct (ascii_dec c a) as [->|]; [| done].
    by rewrite Ascii.eqb_refl in Ha.
Qed.

Lemma basename_spec (p : string) :
  exists dir, p = dir +:+ os_path.basename p
    /\ (dir = "" \/ exists d, dir = d +:+ "/")
    /\ contains "/" (os_path.basename p) = false.
Proof.
  unfold os_path.basename. destruct (contains os_path.sep p) eqn:Hp.
  - destruct (rfind_present _ _ Hp) as (pre & post & -> & Hpost & ->).
    exists (pre +:+ "/").
    replace (Z.to_nat (Z.of_nat (String.length pre) + 1))
      with (String.length (pre +:+ "/")) by (rewrite length_append; simpl; lia).
    assert (pre +:+ String os_path.sep post = (pre +:+ "/") +:+ post) as ->
      by (by rewrite append_assoc).
    rewrite drop_append. eauto.
  - rewrite (rfind_absent _ _ Hp). simpl. exists "". eauto.
Qed.

Lemma char_at_append (a : string) (c : ascii) (r : string) :
  char_at (a +:+ String c r) (Z.of_nat (String.length a)) = String c "".
Proof. unfold char_at. by rewrite Nat2Z.id, drop_append. Qed.

Lemma skip_leading_dots_spec (a pre rest : string) :
  os_path.skip_leading_dots (a +:+ pre +:+ rest)
    (Z.of_nat (String.length a)) (String.length pre)
  = negb (all_dots pre).
Proof.
  revert a. induction pre as [|c pre IH]; intros a; [done |].
  rewrite append_cons. simpl. rewrite char_at_append. simpl.
  change os_path.extsep with "."%char.
  destruct (Ascii.eqb c ".") eqn:Hc; simpl; [| done].
  replace (Z.of_nat (String.length a) + 1)
    with (Z.of_nat (String.length (a +:+ String c ""))) by (rewrite length_append; simpl; lia).
  rewrite <- (IH (a +:+ String c "")). by rewrite append_assoc.
Qed.

Lemma all_dots_replicate (s : string) :
  all_dots s = true -> s = replicate (String.length s) ".".
Proof.
  induction s as [|c s IH]; simpl; [done |].
  intros [Hc Hs]%andb_true_iff. apply Ascii.eqb_eq in Hc as ->. by rewrite <- IH.
Qed.

Lemma replicate_snoc (n : nat) (c : ascii) (s : string) :
  replicate n c +:+ String c s = replicate (S n) c +:+ s.
Proof.
  induction n as [|n IH]; [done |].
  change (replicate (S n) c) with (String c (replicate n c)).
  by rewrite (append_cons c (replicate n c)), IH.
Qed.

(** [splitext] on a name without a directory part: the extension runs from
    the last dot to the end, unless only dots come before that dot. *)
Lemma splitext_spec (b : string) :
  contains "/" b = false ->
  exists stem ext, os_path.splitext b = (stem, ext) /\ b = stem +:+ ext
    /\ ((ext = "" /\ exists n rest, stem = replicate n "." +:+ rest
                                   /\ contains "." rest = false)
        \/ (all_dots stem = false
            /\ exists e, ext = String "." e /\ contains "." e = false)).
Proof.
  intros Hb. unfold os_path.splitext. rewrite (rfind_absent os_path.sep _ Hb).
  destruct (contains os_path.extsep b) eqn:Hdot.
  - destruct (rfind_present _ _ Hdot) as (pre & post & -> & Hpost & ->).
    replace (-1 <? Z.of_nat (String.length pre)) with true by (symmetry; apply Z.ltb_lt; lia).
    replace (Z.to_nat (Z.of_nat (String.length pre) - (-1 + 1))) with (String.length pre) by lia.
    change (-1 + 1) with (Z.of_nat (String.length "")).
    rewrite <- (append_nil_l (pre +:+ _)), skip_leading_dots_spec, append_nil_l.
    rewrite Nat2Z.id, take_append, drop_append. simpl.
    destruct (all_dots pre) eqn:Hpre; simpl.
    + exists (pre +:+ String os_path.extsep post), "". rewrite append_nil_r.
      split; [done |]. split; [done |]. left. split; [done |].
      exists (S (String.length pre)), post. split; [| done].
      rewrite (all_dots_replicate _ Hpre) at 1. apply replicate_snoc.
    + exists pre, (String os_path.extsep post). split; [done |]. split; [done |].
      right. split; [done |]. by exists post.
  - rewrite (rfind_absent _ _ Hdot). simpl.
    exists b, "". rewrite append_nil_r. split; [done |]. split; [done |].
    left. split; [done |]. by exists 0%nat, b.
Qed.

Lemma endswith_append (a suf : string) : endswith (a +:+ suf) suf = true.
Proof.
  unfold endswith. rewrite length_append.
  replace (String.length a + String.length suf - String.length suf)%nat
    with (String.length a) by lia.
  rewrite drop_append, String.eqb_refl.
  by replace (String.length suf <=? String.length a + String.length suf)%nat
    with true by (symmetry; apply Nat.leb_le; lia).
Qed.

End Strings.

(** ** The pipeline *)

Section Facts.
Import pystr.

Context {Image Pixel Tensor Scalar : Type}.
Context {collab : Collaborators Image Pixel Tensor Scalar}.

Local Abbreviation World := (World Image Pixel Tensor).
Local Abbreviation File := (File Image Tensor).

Implicit Types (self : VAECache) (w : World) (fs : gmap string File).
Implicit Types (latents lats : list Tensor) (names paths : list string).

(** The cache key of an identity. *)
Local Abbreviation key self filepath := (_generate_filename self filepath).1.

(** *** Cache keys *)

Lemma join_relative (a b : string) :
  startswith b "/" = false ->
  os_path.join a b
  = (if String.eqb a "" || endswith a "/" then a else a +:+ "/") +:+ b.
Proof.
  intros Hb. unfold os_path.join. change (String os_path.sep "") with "/".
  rewrite Hb. destruct (String.eqb a "" || endswith a "/"); [done |].
  by rewrite append_assoc.
Qed.

(** C6: the cache key of an identity is a function of the identity and the
    cache directory alone: the identity splits as directory part, stem and
    extension (the extension being what follows the last dot of the base
    name, unless only dots precede it), and the key is the stem with the
    suffix [.pt] directly under the cache directory. *)
Theorem generate_filename_spec (filepath : string) :
  exists dir stem ext,
    filepath = dir +:+ stem +:+ ext
    /\ (dir = "" \/ exists d, dir = d +:+ "/")
    /\ contains "/" (stem +:+ ext) = false
    /\ ((ext = "" /\ exists n rest, stem = replicate n "." +:+ rest
                                   /\ contains "." rest = false)
        \/ (all_dots stem = false
            /\ exists e, ext = String "." e /\ contains "." e = false))
    /\ forall self,
         _generate_filename self filepath
         = ((if String.eqb (cache_dir self) "" || endswith (cache_dir self) "/"
             then cache_dir self else cache_dir self +:+ "/") +:+ stem +:+ ".pt",
            stem +:+ ".pt").
Proof.
  destruct (basename_spec filepath) as (dir & Hp & Hdir & Hbase).
  destruct (splitext_spec _ Hbase) as (stem & ext & Hsplit & Hb & Hext).
  exists dir, stem, ext. rewrite <- Hb. repeat split; try done.
  intros self. unfold _generate_filename. rewrite Hsplit. simpl.
  rewrite join_relative; [done |].
  rewrite Hb, contains_append in Hbase. apply orb_false_iff in Hbase as [Hstem _].
  by apply prefix_no_sep.
Qed.

Lemma generate_filename_suffix self (filepath : string) :
  endswith (_generate_filename self filepath).1 ".pt" = true.
Proof.
  destruct (basename_spec filepath) as (dir & Hp & Hdir & Hbase).
  destruct (splitext_spec _ Hbase) as (stem & ext & Hsplit & Hb & Hext).
  unfold _generate_filename. rewrite Hsplit. simpl.
  rewrite join_relative.
  - rewrite <- append_assoc. apply endswith_append.
  - rewrite Hb, contains_append in Hbase. apply orb_false_iff in Hbase as [Hstem _].
    by apply prefix_no_sep.
Qed.

Lemma generate_filename_ext self self' (filepath : string) :
  cache_dir self = cache_dir self' ->
  _generate_filename self filepath = _generate_filename self' filepath.
Proof. intros H. unfold _generate_filename. by rewrite H. Qed.

Lemma generate_filename_unfold self (filepath : string) :
  _generate_filename self filepath
  = (os_path.join (cache_dir self)
       ((os_path.splitext (os_path.basename filepath)).1 +:+ ".pt"),
     (os_path.splitext (os_path.basename filepath)).1 +:+ ".pt").
Proof. reflexivity. Qed.

Opaque _generate_filename.

(** *** Backlog discovery *)

Lemma discover_unprocessed_files_nil self (directory : string) w :
  discover_unprocessed_files self directory w = (w, Ok []).
Proof.
  unfold discover_unprocessed_files. do 2 f_equal.
  apply elements_empty_iff, set_equiv. intros file.
  rewrite elem_of_filter, elem_of_empty. split; [| done].
  intros [Hnot Hin]. apply Hnot, elem_of_map. eauto.
Qed.

Lemma elem_of_all_files fs (directory p : string) :
  p ∈ all_files fs directory <->
  exists subdir names file,
    (subdir, names) ∈ list_files fs image_pattern directory
    /\ file ∈ names /\ has_image_suffix file = true
    /\ p = os_path.join subdir file.
Proof.
  unfold all_files. rewrite elem_of_list_to_set, list_elem_of_In, in_flat_map.
  split.
  - intros ([subdir names] & Hin & Hp). apply in_map_iff in Hp as (file & <- & Hf).
    apply filter_In in Hf as [Hf Hs]. exists subdir, names, file.
    by rewrite !list_elem_of_In.
  - intros (subdir & names & file & Hin & Hf & Hs & ->).
    exists (subdir, names). rewrite list_elem_of_In in Hin. rewrite list_elem_of_In in Hf. split; [done |].
    apply in_map, filter_In. done.
Qed.

(** *** The monad *)

Lemma bind_ok {A B} (m : M A) (k : A -> M B) w w' (a : A) :
  m w = (w', Ok a) -> bind m k w = k a w'.
Proof. unfold bind. by intros ->. Qed.

Lemma bind_raise {A B} (m : M A) (k : A -> M B) w w' (e : exn) :
  m w = (w', Raise e) -> bind m k w = (w', Raise e).
Proof. unfold bind. by intros ->. Qed.

(** A computation that returns has run its first part to a value. *)
Lemma bind_inv {A B} (m : M A) (k : A -> M B) w w2 (b : B) :
  bind m k w = (w2, Ok b) ->
  exists w1 a, m w = (w1, Ok a) /\ k a w1 = (w2, Ok b).
Proof.
  unfold bind. destruct (m w) as [w1 [a | e]]; [eauto | done].
Qed.

(** *** The storage backend *)

Lemma backend_exists_Some (path : string) w :
  is_Some (files w !! path) -> backend_exists path w = (w, Ok true).
Proof. intros H. unfold backend_exists. by rewrite bool_decide_eq_true_2. Qed.

Lemma backend_exists_None (path : string) w :
  files w !! path = None -> backend_exists path w = (w, Ok false).
Proof.
  intros H. unfold backend_exists. rewrite bool_decide_eq_false_2; [done |].
  rewrite H. by intros [? ?].
Qed.

Lemma load_from_cache_tensor (path : string) w (v : Tensor) :
  files w !! path = Some (TensorFile v) -> load_from_cache path w = (w, Ok v).
Proof. intros H. unfold load_from_cache, backend_torch_load. by rewrite H. Qed.

Lemma setitem_ok latents (i : nat) (v : Tensor) w :
  (i < length latents)%nat -> setitem latents i v w = (w, Ok (<[i := v]> latents)).
Proof. intros H. unfold setitem. by destruct (decide (i < length latents)%nat). Qed.

Lemma getitem_ok latents (i : nat) (t : Tensor) w :
  latents !! i = Some t -> getitem latents i w = (w, Ok t).
Proof. intros H. unfold getitem. by rewrite H. Qed.

Lemma getitem_none latents (i : nat) w :
  latents !! i = None -> getitem latents i w = (w, Raise IndexError).
Proof. intros H. unfold getitem. by rewrite H. Qed.

Lemma store_all_lookup names lats fs (k : string) (x : Tensor) :
  (length names <= length lats)%nat ->
  (forall j, names !! j = Some k -> lats !! j = Some x) ->
  k ∈ names \/ fs !! k = Some (TensorFile x) ->
  store_all names lats fs !! k = Some (TensorFile x).
Proof.
  revert lats fs. induction names as [|n names IH]; intros lats fs Hlen Hsame Hk.
  - destruct Hk as [Hk | Hk]; [by apply elem_of_nil in Hk | done].
  - destruct lats as [|t lats]; [simpl in Hlen; lia |]. simpl.
    apply IH; [simpl in Hlen; lia | intros j Hj; apply (Hsame (S j) Hj) |].
    destruct (decide (n = k)) as [-> | Hne].
    + right. specialize (Hsame 0%nat eq_refl). simpl in Hsame.
      injection Hsame as ->. apply lookup_insert_eq.
    + destruct Hk as [Hk | Hk].
      * apply elem_of_cons in Hk as [-> | Hk]; [done | by left].
      * right. by rewrite lookup_insert_ne.
Qed.

Lemma store_all_lookup_other names lats fs (k : string) :
  k ∉ names -> store_all names lats fs !! k = fs !! k.
Proof.
  revert lats fs. induction names as [|n names IH]; intros lats fs Hk; [done |].
  apply not_elem_of_cons in Hk as [Hne Hk].
  destruct lats as [|t lats]; [done |]. simpl.
  rewrite IH by done. by rewrite lookup_insert_ne.
Qed.

(** Every path either keeps its file or holds a tensor afterwards. *)
Lemma store_all_cases names lats fs (k : string) :
  store_all names lats fs !! k = fs !! k
  \/ exists t, store_all names lats fs !! k = Some (TensorFile t).
Proof.
  revert lats fs. induction names as [|n names IH]; intros lats fs; [by left |].
  destruct lats as [|t lats]; [by left |]. simpl.
  destruct (IH lats (<[n := TensorFile t]> fs)) as [-> | ?]; [| by right].
  destruct (decide (n = k)) as [-> | Hne].
  - right. exists t. apply lookup_insert_eq.
  - left. by rewrite lookup_insert_ne.
Qed.

Lemma store_all_written names lats fs (k : string) :
  (length names <= length lats)%nat -> k ∈ names ->
  exists t, store_all names lats fs !! k = Some (TensorFile t).
Proof.
  revert lats fs. induction names as [|n names IH]; intros lats fs Hlen Hk.
  - by apply elem_of_nil in Hk.
  - destruct lats as [|t lats]; [simpl in Hlen; lia |]. simpl.
    destruct (decide (k ∈ names)) as [Hin | Hnin].
    + apply IH; [simpl in Hlen; lia | done].
    + apply elem_of_cons in Hk as [-> | Hk]; [| done].
      exists t. rewrite store_all_lookup_other by done. apply lookup_insert_eq.
Qed.

(** *** Batch encoding *)

(** What the loop of [encode_image_batch] computes when no index is out of
    range and no key holds something that is not a tensor. *)
Lemma encode_loop_ok self paths (i : nat) latents names lats w :
  (i + length paths <= length latents)%nat ->
  Forall (fun fp => forall c, files w !! key self fp <> Some (ImageFile c)) paths ->
  exists out,
    encode_loop self i paths latents names lats w
    = (w, Ok (names ++ map (fun fp => key self fp) paths, lats ++ out))
    /\ length out = length paths
    /\ forall j fp, paths !! j = Some fp ->
         exists t, out !! j = Some (squeeze_to t)
           /\ match files w !! key self fp with
              | Some (TensorFile v) => t = v
              | Some (ImageFile _) => False
              | None => latents !! (i + j)%nat = Some t
              end.
Proof.
  revert i latents names lats.
  induction paths as [|fp paths IH]; intros i latents names lats Hlen Hload.
  - exists []. simpl. rewrite !app_nil_r. split; [done |]. split; [done |].
    intros j fp Hj. by rewrite lookup_nil in Hj.
  - apply Forall_cons in Hload as [Hfp Hload]. simpl in Hlen.
    assert (i < length latents)%nat as Hi by lia.
    cbn [encode_loop].
    destruct (files w !! key self fp) as [[c | v] |] eqn:Hlook.
    + by destruct (Hfp c).
    + erewrite bind_ok by (apply backend_exists_Some; rewrite Hlook; eauto).
      erewrite bind_ok; cycle 1.
      { erewrite bind_ok by (by apply load_from_cache_tensor). by apply setitem_ok. }
      erewrite bind_ok by (apply getitem_ok; by apply list_lookup_insert_eq).
      destruct (IH (S i) (<[i := v]> latents) (names ++ [key self fp])
                  (lats ++ [squeeze_to v])) as (out & Hrun & Hout & Hitems);
        [rewrite length_insert; lia | done |].
      exists (squeeze_to v :: out). rewrite Hrun, <- !app_assoc. simpl.
      split; [done |]. split; [by rewrite Hout |].
      intros [|j] fp' Hj; simpl in Hj.
      * injection Hj as <-. exists v. by rewrite Hlook.
      * destruct (Hitems j fp' Hj) as (t & Ht & Hcase). exists t. split; [done |].
        destruct (files w !! key self fp') as [[?|?]|]; [done | done |].
        rewrite list_lookup_insert_ne in Hcase by lia.
        by replace (i + S j)%nat with (S i + j)%nat by lia.
    + erewrite bind_ok by (by apply backend_exists_None).
      erewrite bind_ok by done.
      destruct (lookup_lt_is_Some_2 latents i Hi) as [t Ht].
      erewrite bind_ok by (by apply getitem_ok).
      destruct (IH (S i) latents (names ++ [key self fp]) (lats ++ [squeeze_to t]))
        as (out & Hrun & Hout & Hitems); [lia | done |].
      exists (squeeze_to t :: out). rewrite Hrun, <- !app_assoc. simpl.
      split; [done |]. split; [by rewrite Hout |].
      intros [|j] fp' Hj; simpl in Hj.
      * injection Hj as <-. exists t. rewrite Hlook. by rewrite Nat.add_0_r.
      * destruct (Hitems j fp' Hj) as (t' & Ht' & Hcase). exists t'. split; [done |].
        destruct (files w !! key self fp') as [[?|?]|]; [done | done |].
        by replace (i + S j)%nat with (S i + j)%nat by lia.
Qed.

(** The result of [encode_image_batch] on a batch that covers its paths. *)
Lemma encode_image_batch_ok self (pixels : list Pixel) paths w :
  paths <> [] ->
  (length paths <= length pixels)%nat ->
  Forall (fun fp => forall c, files w !! key self fp <> Some (ImageFile c)) paths ->
  exists out,
    encode_image_batch self pixels paths w
    = (mkWorld (files w) (vae_calls w ++ [pixels]) (flushes w) (S (rng w)),
       Ok (map (fun fp => key self fp) paths, out))
    /\ length out = length paths
    /\ forall j fp, paths !! j = Some fp ->
         exists t, out !! j = Some (squeeze_to t)
           /\ match files w !! key self fp with
              | Some (TensorFile v) => t = v
              | Some (ImageFile _) => False
              | None => t = tmul (vae_latent (rng w) pixels j) scaling_factor
              end.
Proof.
  intros Hne Hlen Hload. unfold encode_image_batch.
  destruct pixels as [|p pixels]; [destruct paths; [done | simpl in Hlen; lia] |].
  set (batch := p :: pixels) in *.
  erewrite bind_ok by done. erewrite bind_ok by done.
  set (w1 := mkWorld _ _ _ _).
  set (latents := map _ (map _ _)).
  assert (length latents = length batch) as Hlat
    by (unfold latents; by rewrite !length_map, length_seq).
  destruct (encode_loop_ok self paths 0 latents [] [] w1) as (out & Hrun & Hout & Hitems);
    [lia | done |].
  erewrite bind_ok by exact Hrun. simpl.
  destruct out as [|o out]; [destruct paths; [done | simpl in Hout; lia] |].
  exists (o :: out). split; [done |]. split; [done |].
  intros j fp Hj. destruct (Hitems j fp Hj) as (t & Ht & Hcase).
  exists t. split; [done |]. change (files w1) with (files w) in Hcase.
  destruct (files w !! key self fp) as [[?|?]|]; [done | done |].
  simpl in Hcase. unfold latents in Hcase.
  rewrite !list_lookup_fmap in Hcase.
  assert (j < length batch)%nat as Hj'.
  { apply lookup_lt_Some in Hj. lia. }
  rewrite lookup_seq_lt in Hcase by done. simpl in Hcase. by injection Hcase.
Qed.

(** C8: on a batch that covers its paths, the VAE is invoked once, on the
    whole batch, and the embedding returned for an item without a cache
    entry is that item's sampled latent times the scaling factor, squeezed
    and moved to the device. *)
Theorem encode_image_batch_scaled self (pixels : list Pixel) paths w :
  paths <> [] ->
  (length paths <= length pixels)%nat ->
  Forall (fun fp => forall c, files w !! key self fp <> Some (ImageFile c)) paths ->
  exists names embeddings w',
    encode_image_batch self pixels paths w = (w', Ok (names, embeddings))
    /\ vae_calls w' = vae_calls w ++ [pixels]
    /\ length embeddings = length paths
    /\ forall i fp,
         paths !! i = Some fp ->
         files w !! key self fp = None ->
         embeddings !! i
         = Some (squeeze_to (tmul (vae_latent (rng w) pixels i) scaling_factor)).
Proof.
  intros Hne Hlen Hload.
  destruct (encode_image_batch_ok self pixels paths w Hne Hlen Hload)
    as (out & Hrun & Hout & Hitems).
  eexists _, out, _. split; [exact Hrun |]. split; [done |]. split; [done |].
  intros i fp Hi Hnone. destruct (Hitems i fp Hi) as (t & Ht & Hcase).
  rewrite Hnone in Hcase. by subst t.
Qed.

(** C3: an item whose cache entry exists when the batch is encoded gets the
    stored value, not the computed one, and the flush that follows writes
    that same value back, without error; the stored value is taken in the
    squeezed form in which embeddings are written. *)
Theorem existing_entry_wins self (pixels : list Pixel) paths w :
  paths <> [] ->
  (length paths <= length pixels)%nat ->
  Forall (fun fp => forall c, files w !! key self fp <> Some (ImageFile c)) paths ->
  exists names embeddings w1 w2,
    encode_image_batch self pixels paths w = (w1, Ok (names, embeddings))
    /\ backend_write_batch names embeddings w1 = (w2, Ok tt)
    /\ forall i fp v,
         paths !! i = Some fp ->
         files w !! key self fp = Some (TensorFile v) ->
         squeeze_to v = v ->
         embeddings !! i = Some v
         /\ files w2 !! key self fp = Some (TensorFile v).
Proof.
  intros Hne Hlen Hload.
  destruct (encode_image_batch_ok self pixels paths w Hne Hlen Hload)
    as (out & Hrun & Hout & Hitems).
  eexists _, out, _, _. split; [exact Hrun |]. split; [done |].
  intros i fp v Hi Hv Hcanon.
  assert (forall j fp', paths !! j = Some fp' -> key self fp' = key self fp ->
                        out !! j = Some v) as Hsame.
  { intros j fp' Hj Hkey. destruct (Hitems j fp' Hj) as (t & Ht & Hcase).
    rewrite Hkey, Hv in Hcase. subst t. by rewrite Hcanon in Ht. }
  split; [by apply (Hsame i fp) |].
  simpl. apply store_all_lookup.
  - rewrite length_map. lia.
  - intros j Hj. rewrite list_lookup_fmap in Hj.
    destruct (paths !! j) as [fp' |] eqn:Hfp'; [| done].
    simpl in Hj. injection Hj as Hj. by apply (Hsame j fp').
  - left. apply list_elem_of_lookup. exists i. by rewrite list_lookup_fmap, Hi.
Qed.

(** C9: [encode_image] is the batch path on a batch of one and the first of
    its embeddings; the VAE sees the one-item batch, and the result is the
    stored entry when the key exists and the scaled latent otherwise. *)
Theorem encode_image_is_batch_of_one self (pixel_values : Pixel) (filepath : string) w :
  encode_image self pixel_values filepath w
  = encode_batch_of_one self pixel_values filepath w
  /\ encode_image self pixel_values filepath w
    = (mkWorld (files w) (vae_calls w ++ [[pixel_values]]) (flushes w) (S (rng w)),
       match files w !! key self filepath with
       | Some (TensorFile v) => Ok (squeeze_to v)
       | Some (ImageFile _) => Raise UnpicklingError
       | None =>
           Ok (squeeze_to (tmul (vae_latent (rng w) [pixel_values] 0) scaling_factor))
       end).
Proof.
  split.
  - unfold encode_image, encode_batch_of_one, bind.
    destruct (encode_image_batch self [pixel_values] [filepath] w)
      as [w' [[names [|first rest]] | e]]; done.
  - unfold encode_image, encode_image_batch, bind, torch_stack, vae_encode_sample.
    cbn [encode_loop length seq map]. unfold bind, backend_exists, load_from_cache,
      backend_torch_load, ret. simpl.
    destruct (files w !! key self filepath) as [[c | v] |] eqn:Hlook.
    + rewrite bool_decide_eq_true_2 by eauto. cbn [files]. by rewrite Hlook.
    + rewrite bool_decide_eq_true_2 by eauto. cbn [files]. by rewrite Hlook.
    + by rewrite bool_decide_eq_false_2 by (by intros [? ?]).
Qed.


(** *** The worker's partition *)

Lemma elem_of_scan_new_files (existing : gset string)
    (all_image_files : list (string * list string)) (p : string) :
  p ∈ scan_new_files existing all_image_files <->
  exists subdir names file,
    (subdir, names) ∈ all_image_files /\ file ∈ names
    /\ ((os_path.splitext file).1 ∉ existing)
    /\ p = os_path.join subdir file.
Proof.
  unfold scan_new_files. rewrite list_elem_of_In, in_flat_map. split.
  - intros ([subdir names] & Hin & Hp). apply in_map_iff in Hp as (file & <- & Hf).
    apply filter_In in Hf as [Hf Hs]. exists subdir, names, file.
    rewrite !list_elem_of_In. repeat split; try done.
    apply negb_true_iff, bool_decide_eq_false in Hs. done.
  - intros (subdir & names & file & Hin & Hf & Hs & ->).
    exists (subdir, names). rewrite list_elem_of_In in Hin.
    rewrite list_elem_of_In in Hf. split; [done |].
    apply in_map, filter_In. split; [done |].
    by apply negb_true_iff, bool_decide_eq_false.
Qed.

Lemma elem_of_existing_pt_files (remote_cache_list : list (string * list string))
    (stem : string) :
  stem ∈ existing_pt_files remote_cache_list <->
  exists subdir names file,
    (subdir, names) ∈ remote_cache_list /\ file ∈ names
    /\ stem = (os_path.splitext
                (if negb (String.eqb subdir "") then os_path.join subdir file
                 else file)).1.
Proof.
  unfold existing_pt_files. rewrite elem_of_list_to_set, list_elem_of_In, in_flat_map.
  split.
  - intros ([subdir names] & Hin & Hs). apply in_map_iff in Hs as (file & <- & Hf).
    exists subdir, names, file. by rewrite !list_elem_of_In.
  - intros (subdir & names & file & Hin & Hf & ->).
    exists (subdir, names). rewrite list_elem_of_In in Hin.
    rewrite list_elem_of_In in Hf. split; [done |].
    apply in_map_iff. by exists file.
Qed.

(** C10: [process_directory] works on the list held by the field
    [local_unprocessed_files]: after the call, whatever its outcome, the
    field holds the old list with the files of the secondary scan appended,
    shuffled, and every other field is as before.  The appended files are
    the listed image files of the directory, joined to their subdirectory,
    whose stem is not the stem of a listed cache file; a file that is
    already in the old list is appended again. *)
Theorem process_directory_mutates_partition self (directory : string) w
    (partition : list string) :
  local_unprocessed_files self = Some partition ->
  (forall g l, Permutation (shuffle g l) l) ->
  exists self' outcome appended new,
    process_directory self directory w = (self', outcome)
    /\ appended = secondary_scan self directory (files w)
    /\ (forall p,
          p ∈ appended <->
          exists subdir names file,
            (subdir, names) ∈ list_files (files w) image_pattern directory
            /\ file ∈ names
            /\ (forall csubdir cnames cfile,
                  (csubdir, cnames) ∈ list_files (files w) "*.pt" (cache_dir self) ->
                  cfile ∈ cnames ->
                  (os_path.splitext file).1
                  <> (os_path.splitext
                        (if negb (String.eqb csubdir "")
                         then os_path.join csubdir cfile else cfile)).1)
            /\ p = os_path.join subdir file)
    /\ local_unprocessed_files self' = Some new
    /\ new = shuffle (rng w) (partition ++ appended)
    /\ Permutation new (partition ++ appended)
    /\ (forall p, p ∈ new <-> p ∈ partition \/ p ∈ appended)
    /\ length new = (length partition + length appended)%nat
    /\ data_backend self' = data_backend self
    /\ vae self' = vae self
    /\ accelerator self' = accelerator self
    /\ cache_dir self' = cache_dir self
    /\ resolution self' = resolution self
    /\ delete_problematic_images self' = delete_problematic_images self
    /\ write_batch_size self' = write_batch_size self.
Proof.
  intros Hpart Hperm. unfold process_directory. rewrite Hpart.
  eexists _, _, (secondary_scan self directory (files w)), _.
  split; [reflexivity |]. split; [reflexivity |]. split.
  { intros p. unfold secondary_scan. rewrite elem_of_scan_new_files.
    split; intros (subdir & names & file & Hin & Hf & Hs & ->);
      exists subdir, names, file; repeat split; try done.
    - intros csubdir cnames cfile Hcin Hcf Heq. apply Hs.
      apply elem_of_existing_pt_files. by exists csubdir, cnames, cfile.
    - intros Hex. apply elem_of_existing_pt_files in Hex
        as (csubdir & cnames & cfile & Hcin & Hcf & Heq).
      by apply (Hs csubdir cnames cfile). }
  simpl. split; [reflexivity |]. split; [reflexivity |].
  split; [apply Hperm |]. split.
  { intros p. rewrite (Hperm (rng w)). apply elem_of_app. }
  split; [by rewrite (Hperm (rng w)), length_app |].
  repeat split; done.
Qed.

(** *** The main loop, one item at a time *)

(** Take the branch of a conditional whose test is a constructor. *)
Ltac take_branch :=
  match goal with
  | |- context C [if false then _ else ?b] => let g := context C [b] in change g
  | |- context C [if true then ?a else _] => let g := context C [a] in change g
  | |- context C [match @None ?T with Some _ => _ | None => ?b end] =>
      let g := context C [b] in change g
  end.

Lemma load_pixel_values_world (res : Z) (filepath : string) w :
  exists r, load_pixel_values res filepath w = (w, r).
Proof.
  unfold load_pixel_values. destruct (files w !! filepath) as [[c | t] |]; eauto.
Qed.

Lemma process_files_cached self (filepath : string) (rest cur : list string)
    (batch : list Pixel) w :
  is_Some (files w !! key self filepath) ->
  process_files self (filepath :: rest) cur batch w
  = process_files self rest cur batch w.
Proof.
  intros Hkey. cbn [process_files].
  by erewrite bind_ok by (by apply backend_exists_Some).
Qed.

Lemma process_files_caught self (filepath : string) (rest cur : list string)
    (batch : list Pixel) w (e : exn) :
  files w !! key self filepath = None ->
  load_pixel_values (resolution self) filepath w = (w, Raise e) ->
  failure_policy_catches e = true ->
  process_files self (filepath :: rest) cur batch w
  = process_files self rest cur batch
      (if delete_problematic_images self
       then mkWorld (delete filepath (files w)) (vae_calls w) (flushes w) (rng w)
       else w).
Proof.
  intros Hkey Hload Hcatch. cbn [process_files].
  erewrite bind_ok by (by apply backend_exists_None). take_branch.
  destruct (delete_problematic_images self) eqn:Hdel.
  - erewrite bind_ok; cycle 1.
    { unfold try_except. erewrite bind_raise by exact Hload. rewrite Hcatch.
      unfold failure_policy. rewrite Hdel. reflexivity. }
    reflexivity.
  - erewrite bind_ok; cycle 1.
    { unfold try_except. erewrite bind_raise by exact Hload. rewrite Hcatch.
      unfold failure_policy. rewrite Hdel. reflexivity. }
    reflexivity.
Qed.

Lemma process_files_uncaught self (filepath : string) (rest cur : list string)
    (batch : list Pixel) w (e : exn) :
  files w !! key self filepath = None ->
  load_pixel_values (resolution self) filepath w = (w, Raise e) ->
  failure_policy_catches e = false ->
  process_files self (filepath :: rest) cur batch w = (w, Raise e).
Proof.
  intros Hkey Hload Hcatch. cbn [process_files].
  erewrite bind_ok by (by apply backend_exists_None). take_branch.
  erewrite bind_raise; cycle 1.
  { unfold try_except. erewrite bind_raise by exact Hload. by rewrite Hcatch. }
  reflexivity.
Qed.

Lemma process_files_decoded self (filepath : string) (rest cur : list string)
    (batch : list Pixel) w (pixel_values : Pixel) :
  files w !! key self filepath = None ->
  load_pixel_values (resolution self) filepath w = (w, Ok pixel_values) ->
  process_files self (filepath :: rest) cur batch w
  = if Z.of_nat (length (batch ++ [pixel_values])) =? write_batch_size self
    then bind (encode_image_batch self (batch ++ [pixel_values]) (cur ++ [filepath]))
           (fun '(full_filenames, batch_latents) =>
              bind (backend_write_batch full_filenames batch_latents)
                (fun _ => process_files self rest [] [])) w
    else process_files self rest (cur ++ [filepath]) (batch ++ [pixel_values]) w.
Proof.
  intros Hkey Hload. cbn [process_files].
  erewrite bind_ok by (by apply backend_exists_None). take_branch.
  erewrite bind_ok; cycle 1.
  { unfold try_except. by erewrite bind_ok by exact Hload. }
  cbv beta iota.
  by destruct (Z.of_nat (length (batch ++ [pixel_values])) =? write_batch_size self).
Qed.

(** *** The failure policy *)

(** C5 (amended): an item that is not cached and whose decode step raises
    an [OSError] or a [RuntimeError] is skipped: the loop goes on with the
    next item and the same batch, on a backend from which the item has been
    deleted exactly when [delete_problematic_images] is set. *)
Theorem failure_policy_skips_item self (filepath : string) (rest : list string)
    (current_batch_filepaths : list string) (batch_pixel_values : list Pixel)
    w (e : exn) :
  files w !! key self filepath = None ->
  load_pixel_values (resolution self) filepath w = (w, Raise e) ->
  failure_policy_catches e = true ->
  process_files self (filepath :: rest) current_batch_filepaths batch_pixel_values w
  = process_files self rest current_batch_filepaths batch_pixel_values
      (if delete_problematic_images self
       then mkWorld (delete filepath (files w)) (vae_calls w) (flushes w) (rng w)
       else w).
Proof. apply process_files_caught. Qed.

(** *** Whole runs *)

Lemma evolves_refl fs : evolves fs fs.
Proof. intros k. by left. Qed.

Lemma evolves_trans fs1 fs2 fs3 : evolves fs1 fs2 -> evolves fs2 fs3 -> evolves fs1 fs3.
Proof.
  intros H12 H23 k. destruct (H23 k) as [-> | [? | ?]]; [apply H12 | by right; left | by right; right].
Qed.

Lemma evolves_store_all names lats fs : evolves fs (store_all names lats fs).
Proof. intros k. destruct (store_all_cases names lats fs k); [by left | by right; left]. Qed.

Lemma evolves_delete fs (p : string) :
  endswith p ".pt" = false -> evolves fs (delete p fs).
Proof.
  intros Hp k. destruct (decide (p = k)) as [<- | Hne].
  - right; right. by rewrite lookup_delete_eq.
  - left. by rewrite lookup_delete_ne.
Qed.

Lemma undecodable_evolves self fs fs' (filepath : string) :
  evolves fs fs' -> undecodable self fs filepath -> undecodable self fs' filepath.
Proof.
  unfold undecodable. intros Hev Hun.
  destruct (Hev filepath) as [-> | [[t ->] | [-> _]]]; done.
Qed.

Lemma settled_evolves self fs fs' (filepath : string) :
  evolves fs fs' -> settled self fs filepath -> settled self fs' filepath.
Proof.
  intros Hev [Hkey | Hun]; [left | right; by eapply undecodable_evolves].
  destruct (Hev (key self filepath)) as [-> | [[t ->] | [_ Hpt]]]; [done | eauto |].
  by rewrite generate_filename_suffix in Hpt.
Qed.

Lemma settled_ext self self' fs (filepath : string) :
  cache_dir self = cache_dir self' -> resolution self = resolution self' ->
  settled self fs filepath -> settled self' fs filepath.
Proof.
  intros Hdir Hres. unfold settled, undecodable.
  by rewrite (generate_filename_ext self self' filepath Hdir), Hres.
Qed.

Lemma undecodable_load self (filepath : string) w :
  undecodable self (files w) filepath ->
  exists e, load_pixel_values (resolution self) filepath w = (w, Raise e)
            /\ failure_policy_catches e = true.
Proof.
  unfold undecodable, load_pixel_values.
  destruct (files w !! filepath) as [[c | t] |].
  - intros (e & -> & He). eauto.
  - intros _. by exists OSError.
  - intros _. by exists OSError.
Qed.

Lemma load_undecodable self (filepath : string) w (e : exn) :
  load_pixel_values (resolution self) filepath w = (w, Raise e) ->
  failure_policy_catches e = true ->
  undecodable self (files w) filepath.
Proof.
  unfold undecodable, load_pixel_values.
  destruct (files w !! filepath) as [[c | t] |]; [| done | done].
  intros H He. injection H as H. eauto.
Qed.

(** What a returning [encode_image_batch] has done. *)
Lemma encode_loop_inv self paths (i : nat) latents names lats w w' names' lats' :
  encode_loop self i paths latents names lats w = (w', Ok (names', lats')) ->
  w' = w
  /\ names' = names ++ map (fun fp => key self fp) paths
  /\ length lats' = (length lats + length paths)%nat.
Proof.
  revert i latents names lats.
  induction paths as [|fp paths IH]; intros i latents names lats Hrun.
  - injection Hrun as <- <- <-. rewrite app_nil_r. simpl. split; [done |]. split; [done | lia].
  - cbn [encode_loop] in Hrun.
    apply bind_inv in Hrun as (w1 & cached & Hex & Hrun).
    injection Hex as <- <-.
    apply bind_inv in Hrun as (w1 & latents' & Hset & Hrun).
    assert (w1 = w) as ->.
    { destruct (bool_decide (is_Some (files w !! key self fp))).
      - apply bind_inv in Hset as (w2 & v & Hload & Hset).
        unfold load_from_cache, backend_torch_load in Hload.
        unfold setitem in Hset.
        destruct (files w !! key self fp) as [[? | ?] |]; try done.
        injection Hload as <- <-.
        destruct (decide (i < length latents)%nat); [| done]. by injection Hset as <- <-.
      - by injection Hset as <- <-. }
    apply bind_inv in Hrun as (w1 & li & Hget & Hrun).
    assert (w1 = w) as ->.
    { unfold getitem in Hget. destruct (latents' !! i); [| done]. by injection Hget as <- <-. }
    apply IH in Hrun as (-> & -> & Hlen).
    split; [done |]. rewrite <- app_assoc. split; [done |].
    rewrite length_app in Hlen. simpl in *. lia.
Qed.

Lemma encode_image_batch_inv self (pixels : list Pixel) paths w w' names lats :
  encode_image_batch self pixels paths w = (w', Ok (names, lats)) ->
  files w' = files w
  /\ flushes w' = flushes w
  /\ names = map (fun fp => key self fp) paths
  /\ length lats = length paths.
Proof.
  unfold encode_image_batch. intros Hrun.
  apply bind_inv in Hrun as (w1 & stacked & Hstack & Hrun).
  assert (w1 = w) as ->.
  { unfold torch_stack in Hstack. destruct pixels; [done |]. by injection Hstack as <- <-. }
  apply bind_inv in Hrun as (w1 & sampled & Hvae & Hrun).
  injection Hvae as <- <-.
  apply bind_inv in Hrun as (w1 & [names' lats'] & Hloop & Hrun).
  apply encode_loop_inv in Hloop as (-> & -> & Hlen).
  apply bind_inv in Hrun as (w1 & stacked' & Hstack' & Hrun).
  unfold torch_stack in Hstack'. destruct lats' as [|l lats']; [done |].
  injection Hstack' as <- <-. injection Hrun as <- <- <-. done.
Qed.

(** A flush leaves every key of its batch in the backend. *)
Lemma flush_settles self (pixels : list Pixel) paths w w1 w2 names lats :
  encode_image_batch self pixels paths w = (w1, Ok (names, lats)) ->
  backend_write_batch names lats w1 = (w2, Ok tt) ->
  evolves (files w) (files w2)
  /\ forall fp, fp ∈ paths -> settled self (files w2) fp.
Proof.
  intros Henc Hwrite. apply encode_image_batch_inv in Henc as (Hfiles & _ & -> & Hlen).
  injection Hwrite as <-. simpl. rewrite Hfiles. split; [apply evolves_store_all |].
  intros fp Hfp. left.
  destruct (store_all_written (map (fun fp => key self fp) paths) lats (files w)
              (key self fp)) as [t ->]; [rewrite length_map; lia | | eauto].
  apply list_elem_of_fmap. eauto.
Qed.

(** The loop of [encode_image_batch] runs off the end of [latents] when it
    is given more paths than latents. *)
Lemma encode_loop_index_error self paths (i : nat) latents names lats w :
  (i <= length latents)%nat ->
  (length latents < i + length paths)%nat ->
  Forall (fun fp => forall c, files w !! key self fp <> Some (ImageFile c)) paths ->
  encode_loop self i paths latents names lats w = (w, Raise IndexError).
Proof.
  revert i latents names lats.
  induction paths as [|fp paths IH]; intros i latents names lats Hle Hlt Hload.
  - simpl in Hlt. lia.
  - apply Forall_cons in Hload as [Hfp Hload]. simpl in Hlt. cbn [encode_loop].
    destruct (decide (i < length latents)%nat) as [Hi | Hi].
    + destruct (files w !! key self fp) as [[c | v] |] eqn:Hlook.
      * by destruct (Hfp c).
      * erewrite bind_ok by (apply backend_exists_Some; rewrite Hlook; eauto).
        erewrite bind_ok; cycle 1.
        { erewrite bind_ok by (by apply load_from_cache_tensor). by apply setitem_ok. }
        erewrite bind_ok by (apply getitem_ok; by apply list_lookup_insert_eq).
        apply IH; [rewrite length_insert; lia | rewrite length_insert; lia | done].
      * erewrite bind_ok by (by apply backend_exists_None).
        erewrite bind_ok by done.
        destruct (lookup_lt_is_Some_2 latents i Hi) as [t Ht].
        erewrite bind_ok by (by apply getitem_ok).
        apply IH; [lia | lia | done].
    + destruct (files w !! key self fp) as [[c | v] |] eqn:Hlook.
      * by destruct (Hfp c).
      * erewrite bind_ok by (apply backend_exists_Some; rewrite Hlook; eauto).
        erewrite bind_raise; [reflexivity |].
        erewrite bind_ok by (by apply load_from_cache_tensor).
        unfold setitem. by destruct (decide (i < length latents)%nat).
      * erewrite bind_ok by (by apply backend_exists_None).
        erewrite bind_ok by done.
        erewrite bind_raise; [reflexivity |].
        apply getitem_none, lookup_ge_None. lia.
Qed.

(** The flush after the loop fails whenever the batch that is left is
    shorter than the worklist: the VAE is invoked, nothing is written. *)
Lemma flush_remaining_index_error self (files_to_process : list string)
    (batch : list Pixel) w :
  batch <> [] ->
  (length batch < length files_to_process)%nat ->
  Forall (fun fp => forall c, files w !! key self fp <> Some (ImageFile c))
    files_to_process ->
  flush_remaining self files_to_process batch w
  = (mkWorld (files w) (vae_calls w ++ [batch]) (flushes w) (S (rng w)),
     Raise IndexError).
Proof.
  intros Hne Hlt Hload. unfold flush_remaining.
  destruct batch as [|p batch]; [done |].
  erewrite bind_raise; [reflexivity |].
  unfold encode_image_batch.
  erewrite bind_ok by done. erewrite bind_ok by done.
  erewrite bind_raise; [reflexivity |].
  apply encode_loop_index_error; [lia | | done].
  rewrite !length_map, length_seq. simpl in *. lia.
Qed.

(** A loop that returns leaves every item it has seen settled or waiting
    in the batch. *)
Lemma process_files_settles self (l cur : list string) (batch : list Pixel) w w'
    (cur' : list string) (batch' : list Pixel) :
  process_files self l cur batch w = (w', Ok (cur', batch')) ->
  Forall (fun fp => endswith fp ".pt" = false) l ->
  length cur = length batch ->
  evolves (files w) (files w')
  /\ length cur' = length batch'
  /\ forall fp, fp ∈ l \/ fp ∈ cur -> settled self (files w') fp \/ fp ∈ cur'.
Proof.
  revert cur batch w. induction l as [|fp l IH]; intros cur batch w Hrun Hpt Hlen.
  - injection Hrun as <- <- <-. split; [apply evolves_refl |]. split; [done |].
    intros fp [Hfp | Hfp]; [by apply elem_of_nil in Hfp | by right].
  - apply Forall_cons in Hpt as [Hfp Hpt].
    destruct (files w !! key self fp) as [f |] eqn:Hkey.
    { rewrite process_files_cached in Hrun by (rewrite Hkey; eauto).
      destruct (IH _ _ _ Hrun Hpt Hlen) as (Hev & Hlen' & Hall).
      split; [done |]. split; [done |].
      intros fp' [[-> | Hin]%elem_of_cons | Hin]; [| by apply Hall; left | by apply Hall; right].
      left. apply (settled_evolves self (files w)); [done |]. left. rewrite Hkey. eauto. }
    destruct (load_pixel_values_world (resolution self) fp w) as [[p | e] Hload].
    + rewrite (process_files_decoded self fp l cur batch w p Hkey Hload) in Hrun.
      destruct (Z.of_nat (length (batch ++ [p])) =? write_batch_size self).
      * apply bind_inv in Hrun as (w1 & [names lats] & Henc & Hrun).
        apply bind_inv in Hrun as (w2 & [] & Hwrite & Hrun).
        destruct (flush_settles _ _ _ _ _ _ _ _ Henc Hwrite) as (Hev1 & Hflushed).
        destruct (IH _ _ _ Hrun Hpt eq_refl) as (Hev2 & Hlen' & Hall).
        split; [by eapply evolves_trans |]. split; [done |].
        intros fp' Hfp'. assert (fp' ∈ l \/ fp' ∈ cur ++ [fp]) as [Hin | Hin].
        { rewrite elem_of_app, list_elem_of_singleton.
          destruct Hfp' as [[-> | ?]%elem_of_cons | ?]; eauto. }
        -- apply Hall. by left.
        -- left. apply (settled_evolves self (files w2)); [done | by apply Hflushed].
      * destruct (IH _ _ _ Hrun Hpt) as (Hev & Hlen' & Hall).
        { rewrite !length_app. simpl. lia. }
        split; [done |]. split; [done |].
        intros fp' Hfp'. apply Hall. rewrite elem_of_app, list_elem_of_singleton.
        destruct Hfp' as [[-> | ?]%elem_of_cons | ?]; eauto.
    + destruct (failure_policy_catches e) eqn:He.
      * rewrite (process_files_caught self fp l cur batch w e Hkey Hload He) in Hrun.
        assert (evolves (files w)
                  (files (if delete_problematic_images self
                          then mkWorld (delete fp (files w)) (vae_calls w) (flushes w) (rng w)
                          else w))) as Hev1.
        { destruct (delete_problematic_images self);
            [by apply evolves_delete | apply evolves_refl]. }
        destruct (IH _ _ _ Hrun Hpt Hlen) as (Hev2 & Hlen' & Hall).
        split; [by eapply evolves_trans |]. split; [done |].
        intros fp' [[-> | Hin]%elem_of_cons | Hin]; [| by apply Hall; left | by apply Hall; right].
        left. apply (settled_evolves self (files w)); [by eapply evolves_trans |].
        right. by eapply load_undecodable.
      * by rewrite (process_files_uncaught self fp l cur batch w e Hkey Hload He) in Hrun.
Qed.

(** On settled items the loop decodes nothing, encodes nothing and writes
    nothing. *)
Lemma process_files_idle self (l cur : list string) (batch : list Pixel) w :
  Forall (settled self (files w)) l ->
  Forall (fun fp => endswith fp ".pt" = false) l ->
  exists w',
    process_files self l cur batch w = (w', Ok (cur, batch))
    /\ vae_calls w' = vae_calls w
    /\ flushes w' = flushes w
    /\ forall k, endswith k ".pt" = true -> files w' !! k = files w !! k.
Proof.
  revert w. induction l as [|fp l IH]; intros w Hset Hpt.
  - by exists w.
  - apply Forall_cons in Hset as [Hfp Hset]. apply Forall_cons in Hpt as [Hfppt Hpt].
    destruct (files w !! key self fp) as [f |] eqn:Hkey.
    { rewrite process_files_cached by (rewrite Hkey; eauto). by apply IH. }
    destruct Hfp as [Hsome | Hun]; [rewrite Hkey in Hsome; by destruct Hsome |].
    destruct (undecodable_load _ _ _ Hun) as (e & Hload & He).
    rewrite (process_files_caught self fp l cur batch w e Hkey Hload He).
    set (w1 := if delete_problematic_images self then _ else w).
    assert (evolves (files w) (files w1)) as Hev.
    { unfold w1. destruct (delete_problematic_images self);
        [by apply evolves_delete | apply evolves_refl]. }
    destruct (IH w1) as (w' & Hrun & Hvae & Hfl & Hfiles); [| done |].
    { eapply Forall_impl; [exact Hset |]. intros fp'. by apply settled_evolves. }
    exists w'. split; [done |].
    assert (vae_calls w1 = vae_calls w /\ flushes w1 = flushes w) as [Hv1 Hf1]
      by (unfold w1; by destruct (delete_problematic_images self)).
    split; [congruence |]. split; [congruence |].
    intros k Hk. rewrite (Hfiles k Hk). unfold w1.
    destruct (delete_problematic_images self); [| done]. simpl.
    apply lookup_delete_ne. intros ->. congruence.
Qed.

(** A run that completes leaves its whole worklist settled. *)
Lemma process_directory_settles self (directory : string) w self' w'
    (partition : list string) :
  local_unprocessed_files self = Some partition ->
  process_directory self directory w = (self', (w', Ok tt)) ->
  Forall (fun fp => endswith fp ".pt" = false)
    (shuffle (rng w) (partition ++ secondary_scan self directory (files w))) ->
  self' = set_local_unprocessed_files self
            (shuffle (rng w) (partition ++ secondary_scan self directory (files w)))
  /\ Forall (settled self (files w'))
       (shuffle (rng w) (partition ++ secondary_scan self directory (files w))).
Proof.
  intros Hpart Hrun Hpt. unfold process_directory in Hrun. rewrite Hpart in Hrun.
  set (l := shuffle (rng w) _) in *.
  injection Hrun as <- Hrun. split; [done |].
  apply bind_inv in Hrun as (w1 & [cur' batch'] & Hloop & Hflush).
  destruct (process_files_settles _ _ _ _ _ _ _ _ Hloop Hpt eq_refl) as (Hev & Hlen & Hall).
  apply Forall_forall. intros fp Hfp.
  apply (settled_ext (set_local_unprocessed_files self l) self); [done | done |].
  unfold flush_remaining in Hflush. destruct batch' as [|p batch'].
  - injection Hflush as <-. destruct cur'; [| done].
    destruct (Hall fp (or_introl Hfp)) as [? | Hin]; [done | by apply elem_of_nil in Hin].
  - apply bind_inv in Hflush as (w2 & [names lats] & Henc & Hwrite).
    destruct (flush_settles _ _ _ _ _ _ _ _ Henc Hwrite) as (_ & Hflushed).
    by apply Hflushed.
Qed.

(** C4: when a first run has completed, a second run over a worklist that
    holds nothing the first did not have invokes the VAE not once and
    writes nothing: every item is skipped at the existence check or, if its
    decode step fails again, by the failure policy, and every cache record
    is as the first run left it. *)
Theorem second_run_is_idle self (directory : string) w0 self1 w1
    (partition partition2 : list string) :
  local_unprocessed_files self = Some partition ->
  (forall g l, Permutation (shuffle g l) l) ->
  process_directory self directory w0 = (self1, (w1, Ok tt)) ->
  Forall (fun fp => endswith fp ".pt" = false)
    (partition ++ secondary_scan self directory (files w0)) ->
  Forall (fun fp => fp ∈ partition ++ secondary_scan self directory (files w0))
    (partition2 ++ secondary_scan self directory (files w1)) ->
  exists self2 w2,
    process_directory (set_local_unprocessed_files self1 partition2) directory w1
    = (self2, (w2, Ok tt))
    /\ vae_calls w2 = vae_calls w1
    /\ flushes w2 = flushes w1
    /\ (forall k, endswith k ".pt" = true -> files w2 !! k = files w1 !! k)
    /\ (forall fp, files w2 !! key self fp = files w1 !! key self fp).
Proof.
  intros Hpart Hperm Hrun Hpt Hsub.
  set (l1 := partition ++ secondary_scan self directory (files w0)) in *.
  assert (Forall (fun fp => endswith fp ".pt" = false) (shuffle (rng w0) l1)) as Hpt1.
  { apply Forall_forall. intros fp Hfp. rewrite Forall_forall in Hpt. apply Hpt.
    by rewrite <- (Hperm (rng w0) l1). }
  destruct (process_directory_settles _ _ _ _ _ _ Hpart Hrun Hpt1) as (-> & Hsettled).
  unfold process_directory. cbn [local_unprocessed_files set_local_unprocessed_files].
  set (self2 := set_local_unprocessed_files _ _).
  set (l2 := shuffle (rng w1) _).
  assert (forall fp, fp ∈ l2 -> fp ∈ shuffle (rng w0) l1) as Hin.
  { intros fp Hfp. unfold l2 in Hfp. rewrite (Hperm (rng w1)) in Hfp.
    rewrite (Hperm (rng w0) l1). rewrite Forall_forall in Hsub. by apply Hsub. }
  set (w1' := mkWorld (files w1) (vae_calls w1) (flushes w1) (S (rng w1))).
  destruct (process_files_idle self2 l2 [] [] w1') as (w2 & Hloop & Hvae & Hfl & Hfiles).
  { apply Forall_forall. intros fp Hfp.
    apply (settled_ext self self2); [done | done |].
    rewrite Forall_forall in Hsettled. by apply Hsettled, Hin. }
  { apply Forall_forall. intros fp Hfp. rewrite Forall_forall in Hpt1. by apply Hpt1, Hin. }
  exists self2, w2. split.
  { f_equal. erewrite bind_ok by exact Hloop. reflexivity. }
  split; [done |]. split; [done |]. split; [done |].
  intros fp. apply Hfiles, generate_filename_suffix.
Qed.

(** ** Further properties of the cache keys *)

Lemma rfind_append_last (c : ascii) (a b : string) :
  contains c b = false ->
  rfind c (a +:+ String c b) = Z.of_nat (String.length a).
Proof.
  intros Hb. induction a as [|x a IH].
  - rewrite append_nil_l. simpl. by rewrite (rfind_absent _ _ Hb), Ascii.eqb_refl.
  - rewrite append_cons. cbn [rfind String.length]. rewrite IH.
    destruct (0 <=? Z.of_nat (String.length a)) eqn:E; lia.
Qed.

Lemma basename_no_sep (b : string) :
  contains "/" b = false -> os_path.basename b = b.
Proof.
  intros Hb. unfold os_path.basename. by rewrite (rfind_absent os_path.sep _ Hb).
Qed.

Lemma basename_append (dir name : string) :
  contains "/" name = false ->
  os_path.basename (dir +:+ String "/" name) = name.
Proof.
  intros Hname. unfold os_path.basename.
  change (String "/" name) with (String os_path.sep name).
  rewrite (rfind_append_last os_path.sep dir name Hname).
  change (String os_path.sep name) with (String "/" name).
  replace (Z.to_nat (Z.of_nat (String.length dir) + 1))
    with (String.length (dir +:+ "/")) by (rewrite length_append; simpl; lia).
  assert (dir +:+ String "/" name = (dir +:+ "/") +:+ name) as ->
    by (by rewrite append_assoc).
  apply drop_append.
Qed.

(** X1: the directory part of an identity plays no role in its cache key:
    [dir/name] and [name] get the same pair, so identities that differ
    only in their directory collide in the cache. *)
Theorem generate_filename_ignores_directory self (dir name : string) :
  contains "/" name = false ->
  _generate_filename self (dir +:+ String "/" name) = _generate_filename self name.
Proof.
  intros Hname. rewrite !generate_filename_unfold.
  by rewrite basename_append, basename_no_sep.
Qed.

Lemma splitext_split (stem e : string) :
  contains "/" stem = false -> contains "/" e = false ->
  contains "." e = false -> all_dots stem = false ->
  os_path.splitext (stem +:+ String "." e) = (stem, String "." e).
Proof.
  intros Hs He Hdot Hstem. unfold os_path.splitext.
  assert (contains os_path.sep (stem +:+ String "." e) = false) as Hsep.
  { rewrite contains_append. simpl. change os_path.sep with "/"%char.
    by rewrite Hs, He. }
  rewrite (rfind_absent _ _ Hsep).
  change (String "." e) with (String os_path.extsep e).
  rewrite (rfind_append_last os_path.extsep stem e Hdot).
  replace (-1 <? Z.of_nat (String.length stem)) with true by (symmetry; apply Z.ltb_lt; lia).
  replace (Z.to_nat (Z.of_nat (String.length stem) - (-1 + 1))) with (String.length stem) by lia.
  change (-1 + 1) with (Z.of_nat (String.length "")).
  rewrite <- (append_nil_l (stem +:+ _)), skip_leading_dots_spec, append_nil_l.
  by rewrite Hstem, Nat2Z.id, take_append, drop_append.
Qed.

Lemma contains_replicate_other (n : nat) (c d : ascii) :
  c <> d -> contains c (replicate n d) = false.
Proof.
  intros Hne. induction n as [|n IH]; [done |]. simpl. rewrite IH, orb_false_r.
  apply Ascii.eqb_neq. congruence.
Qed.

Lemma all_dots_replicate_true (n : nat) : all_dots (replicate n ".") = true.
Proof. induction n as [|n IH]; [done |]. simpl. by rewrite IH. Qed.

Lemma length_replicate (n : nat) (c : ascii) : String.length (replicate n c) = n.
Proof. induction n as [|n IH]; [done |]. simpl. by rewrite IH. Qed.

Lemma splitext_leading_dots (n : nat) (rest : string) :
  contains "/" rest = false -> contains "." rest = false ->
  os_path.splitext (replicate n "." +:+ rest) = (replicate n "." +:+ rest, "").
Proof.
  intros Hs Hdot. unfold os_path.splitext.
  assert (contains os_path.sep (replicate n "." +:+ rest) = false) as Hsep.
  { rewrite contains_append. change os_path.sep with "/"%char.
    by rewrite Hs, contains_replicate_other. }
  rewrite (rfind_absent _ _ Hsep).
  destruct n as [|n].
  - rewrite append_nil_l, (rfind_absent os_path.extsep _ Hdot). done.
  - rewrite <- replicate_snoc. change (String "." rest) with (String os_path.extsep rest).
    rewrite (rfind_append_last os_path.extsep (replicate n ".") rest Hdot).
    rewrite length_replicate.
    replace (-1 <? Z.of_nat n) with true by (symmetry; apply Z.ltb_lt; lia).
    replace (Z.to_nat (Z.of_nat n - (-1 + 1))) with (String.length (replicate n ".")%string)
      by (rewrite length_replicate; lia).
    change (-1 + 1) with (Z.of_nat (String.length "")).
    rewrite <- (append_nil_l (replicate n "." +:+ _)), skip_leading_dots_spec.
    by rewrite all_dots_replicate_true.
Qed.

(** X2: when the base name of an identity is [stem.e], with no dot in [e]
    and a character other than the dot in [stem], the cache file is
    [stem.pt] under the cache directory: the last extension is replaced,
    whatever it is. *)
Theorem generate_filename_replaces_extension self (filepath stem e : string) :
  os_path.basename filepath = stem +:+ String "." e ->
  contains "." e = false ->
  all_dots stem = false ->
  _generate_filename self filepath
  = (os_path.join (cache_dir self) (stem +:+ ".pt"), stem +:+ ".pt").
Proof.
  intros Hbase Hdot Hstem. rewrite generate_filename_unfold, Hbase.
  destruct (basename_spec filepath) as (dir & _ & _ & Hsep).
  rewrite Hbase, contains_append in Hsep. simpl in Hsep.
  apply orb_false_iff in Hsep as [Hs He].
  by rewrite splitext_split.
Qed.

(** X3: when every dot of the base name of an identity is a leading dot (a
    name without extension, a dot file such as [.png], the empty name of a
    path ending in a slash), nothing is stripped: the cache file is the
    whole base name followed by [.pt]. *)
Theorem generate_filename_keeps_dotfile self (filepath : string) (n : nat) (rest : string) :
  os_path.basename filepath = replicate n "." +:+ rest ->
  contains "." rest = false ->
  _generate_filename self filepath
  = (os_path.join (cache_dir self) (os_path.basename filepath +:+ ".pt"),
     os_path.basename filepath +:+ ".pt").
Proof.
  intros Hbase Hdot. rewrite generate_filename_unfold, Hbase.
  destruct (basename_spec filepath) as (dir & _ & _ & Hsep).
  rewrite Hbase, contains_append in Hsep.
  apply orb_false_iff in Hsep as [_ Hs].
  by rewrite splitext_leading_dots.
Qed.

(** ** Further properties of batch encoding *)

Lemma encode_loop_world self paths (i : nat) latents names lats w :
  (encode_loop self i paths latents names lats w).1 = w.
Proof.
  revert i latents names lats.
  induction paths as [|fp paths IH]; intros i latents names lats; [done |].
  cbn [encode_loop]. unfold bind at 1. unfold backend_exists at 1. cbv beta iota.
  destruct (bool_decide (is_Some (files w !! key self fp))).
  - unfold bind at 1. unfold bind at 1.
    unfold load_from_cache, backend_torch_load.
    destruct (files w !! key self fp) as [[c | v] |]; [done | | done].
    unfold setitem. destruct (decide (i < length latents)%nat); [| done].
    unfold ret at 1. cbv beta iota. unfold bind at 1, getitem.
    destruct (<[i := v]> latents !! i); [apply IH | done].
  - unfold bind at 1. unfold ret at 1. cbv beta iota. unfold bind at 1, getitem.
    destruct (latents !! i); [apply IH | done].
Qed.

(** The world after [encode_image_batch], whatever its outcome. *)
Lemma encode_image_batch_frame self (pixels : list Pixel) paths w :
  files (encode_image_batch self pixels paths w).1 = files w
  /\ flushes (encode_image_batch self pixels paths w).1 = flushes w
  /\ vae_calls (encode_image_batch self pixels paths w).1
     = match pixels with
       | [] => vae_calls w
       | _ => vae_calls w ++ [pixels]
       end.
Proof.
  unfold encode_image_batch. destruct pixels as [|p pixels]; [done |].
  set (batch := p :: pixels).
  erewrite bind_ok by done. erewrite bind_ok by done.
  set (w1 := mkWorld _ _ _ _). set (latents := map _ _).
  pose proof (encode_loop_world self paths 0 latents [] [] w1) as Hw.
  match goal with |- context [bind ?m ?k w1] =>
    assert (exists r, bind m k w1 = (w1, r)) as [r ->] end; [| done].
  unfold bind at 1.
  destruct (encode_loop self 0 paths latents [] [] w1) as [w2 [[names lats] | e]];
    simpl in Hw; subst w2; [| eauto].
  unfold bind, torch_stack. destruct lats; eauto.
Qed.

(** X4: [encode_image_batch] only reads the backend: whatever its
    outcome, it writes and deletes nothing and flushes nothing, and it
    invokes the VAE at most once, on the whole batch it was given.  An
    empty batch raises a [RuntimeError] before the VAE is reached, whatever
    the paths; and whenever the call returns normally the VAE has been
    invoked, also when every path has a cache entry. *)
Theorem encode_image_batch_effects self (pixels : list Pixel) paths w :
  files (encode_image_batch self pixels paths w).1 = files w
  /\ flushes (encode_image_batch self pixels paths w).1 = flushes w
  /\ (vae_calls (encode_image_batch self pixels paths w).1 = vae_calls w
      \/ vae_calls (encode_image_batch self pixels paths w).1 = vae_calls w ++ [pixels])
  /\ (pixels = [] -> encode_image_batch self pixels paths w = (w, Raise RuntimeError))
  /\ (forall out, (encode_image_batch self pixels paths w).2 = Ok out ->
        vae_calls (encode_image_batch self pixels paths w).1 = vae_calls w ++ [pixels]).
Proof.
  destruct (encode_image_batch_frame self pixels paths w) as (Hfiles & Hflushes & Hvae).
  split; [done |]. split; [done |]. split; [| split].
  - rewrite Hvae. destruct pixels; [by left | by right].
  - by intros ->.
  - intros out Hout. rewrite Hvae. destruct pixels; [| done].
    by unfold encode_image_batch in Hout.
Qed.

(** Why a returning loop cannot have run off the batch or met a key that
    holds no tensor. *)
Lemma encode_loop_returns self paths (i : nat) latents names lats w w' out :
  encode_loop self i paths latents names lats w = (w', Ok out) ->
  (paths = [] \/ (i + length paths <= length latents)%nat)
  /\ Forall (fun fp => forall c, files w !! key self fp <> Some (ImageFile c)) paths.
Proof.
  revert i latents names lats.
  induction paths as [|fp paths IH]; intros i latents names lats Hrun.
  - split; [by left | constructor].
  - cbn [encode_loop] in Hrun.
    apply bind_inv in Hrun as (w1 & cached & Hex & Hrun).
    injection Hex as <- <-.
    apply bind_inv in Hrun as (w1 & latents' & Hset & Hrun).
    assert (w1 = w /\ length latents' = length latents
            /\ forall c, files w !! key self fp <> Some (ImageFile c)) as (-> & Hlen & Hfp).
    { destruct (bool_decide (is_Some (files w !! key self fp))) eqn:Hdec.
      - apply bind_inv in Hset as (w2 & v & Hload & Hset).
        unfold load_from_cache, backend_torch_load in Hload.
        unfold setitem in Hset.
        destruct (files w !! key self fp) as [[? | ?] |]; try done.
        injection Hload as <- <-.
        destruct (decide (i < length latents)%nat); [| done].
        injection Hset as <- <-. by rewrite length_insert.
      - injection Hset as <- <-. apply bool_decide_eq_false in Hdec.
        split; [done |]. split; [done |]. intros c Hc. apply Hdec. rewrite Hc. eauto. }
    apply bind_inv in Hrun as (w1 & li & Hget & Hrun).
    assert (w1 = w /\ (i < length latents)%nat) as [-> Hi].
    { unfold getitem in Hget. destruct (latents' !! i) eqn:Hli; [| done].
      injection Hget as <- <-. split; [done |].
      apply lookup_lt_Some in Hli. lia. }
    apply IH in Hrun as [Hrest Hload]. split; [| by constructor].
    right. simpl. destruct Hrest as [-> | Hrest]; simpl; lia.
Qed.

(** Why a returning [encode_image_batch] was given a batch that covers
    its paths. *)
Lemma encode_image_batch_returns self (pixels : list Pixel) paths w w' out :
  encode_image_batch self pixels paths w = (w', Ok out) ->
  paths <> []
  /\ (length paths <= length pixels)%nat
  /\ Forall (fun fp => forall c, files w !! key self fp <> Some (ImageFile c)) paths.
Proof.
  intros Hrun. unfold encode_image_batch in Hrun.
  apply bind_inv in Hrun as (w1 & stacked & Hstack & Hrun).
  assert (w1 = w /\ stacked = pixels) as [-> ->].
  { unfold torch_stack in Hstack. destruct pixels; [done |]. by injection Hstack as <- <-. }
  apply bind_inv in Hrun as (w1 & sampled & Hvae & Hrun).
  injection Hvae as <- <-.
  apply bind_inv in Hrun as (w1 & [names' lats'] & Hloop & Hrun).
  pose proof (encode_loop_inv _ _ _ _ _ _ _ _ _ _ Hloop) as (_ & _ & Hlen).
  apply encode_loop_returns in Hloop as [Hcover Hload].
  apply bind_inv in Hrun as (w2 & stacked' & Hstack' & _).
  unfold torch_stack in Hstack'. destruct lats' as [|l lats']; [done |].
  assert (paths <> []) as Hne by (intros ->; simpl in Hlen; lia).
  split; [done |]. split; [| done].
  destruct Hcover as [-> | Hcover]; [done |].
  rewrite !length_map, length_seq in Hcover. lia.
Qed.

(** X5: [encode_image_batch] cannot return normally on an empty list of
    paths, on more paths than pixel tensors, or on a path whose cache key
    holds something that is not a stored tensor: each of these makes it
    raise, and an empty list of paths makes it raise a [RuntimeError]. *)
Theorem encode_image_batch_raises self (pixels : list Pixel) paths w :
  paths = []
  \/ (length pixels < length paths)%nat
  \/ Exists (fun fp => exists c, files w !! key self fp = Some (ImageFile c)) paths ->
  exists e,
    (encode_image_batch self pixels paths w).2 = Raise e
    /\ (paths = [] -> e = RuntimeError).
Proof.
  intros Hbad.
  destruct (encode_image_batch self pixels paths w) as [w' [out | e]] eqn:Hrun.
  - exfalso. apply encode_image_batch_returns in Hrun as (Hne & Hlen & Hload).
    destruct Hbad as [-> | [Hlt | Hex]]; [done | lia |].
    apply Exists_exists in Hex as (fp & Hin & c & Hc).
    rewrite Forall_forall in Hload. by apply (Hload fp Hin c).
  - exists e. split; [done |]. intros ->.
    unfold encode_image_batch in Hrun. destruct pixels as [|p pixels].
    + by injection Hrun as _ <-.
    + by injection Hrun as _ <-.
Qed.

(** X6: what [encode_image_batch] returns is aligned with its paths: the
    file names are the cache keys of the paths, in the order of the paths,
    and there is one embedding per path. *)
Theorem encode_image_batch_aligned self (pixels : list Pixel) paths w w'
    names (embeddings : list Tensor) :
  encode_image_batch self pixels paths w = (w', Ok (names, embeddings)) ->
  names = map (fun fp => key self fp) paths
  /\ length embeddings = length paths
  /\ (length paths <= length pixels)%nat.
Proof.
  intros Hrun.
  pose proof (encode_image_batch_returns _ _ _ _ _ _ Hrun) as (_ & Hlen & _).
  apply encode_image_batch_inv in Hrun as (_ & _ & Hnames & Hemb). done.
Qed.

(** Whatever the order of the pairs, a key that is written holds the
    tensor of one of its pairs. *)
Lemma store_all_some_pair (pairs : list (string * Tensor)) fs (k : string) :
  k ∈ pairs.*1 ->
  exists t, (k, t) ∈ pairs
            /\ store_all pairs.*1 pairs.*2 fs !! k = Some (TensorFile t).
Proof.
  revert fs. induction pairs as [|[n t] pairs IH]; intros fs Hk.
  - by apply elem_of_nil in Hk.
  - cbn [fmap list_fmap fst snd store_all].
    destruct (decide (k ∈ pairs.*1)) as [Hin | Hnin].
    + destruct (IH (<[n := TensorFile t]> fs) Hin) as (t' & Ht' & Hlook).
      exists t'. split; [apply elem_of_cons; by right | done].
    + apply elem_of_cons in Hk as [-> | Hk]; [| done].
      exists t. split; [apply elem_of_cons; by left |].
      rewrite store_all_lookup_other by done. apply lookup_insert_eq.
Qed.

(** X7: after the flush of what [encode_image_batch] returned, the cache
    key of every path of the batch holds the embedding returned for a path
    of the batch with that key, in whatever order the backend writes the
    pairs.  Paths of one batch that have the same cache key therefore end
    up with one entry, the embedding of one of them. *)
Theorem colliding_paths_share_entry self (pixels : list Pixel) paths w w1
    names (embeddings : list Tensor) (pairs : list (string * Tensor))
    (i : nat) (filepath : string) :
  encode_image_batch self pixels paths w = (w1, Ok (names, embeddings)) ->
  Permutation pairs (zip names embeddings) ->
  paths !! i = Some filepath ->
  exists (j : nat) (other : string) (e : Tensor),
    paths !! j = Some other
    /\ key self other = key self filepath
    /\ embeddings !! j = Some e
    /\ store_all pairs.*1 pairs.*2 (files w1) !! key self filepath
       = Some (TensorFile e).
Proof.
  intros Hrun Hperm Hi.
  apply encode_image_batch_inv in Hrun as (_ & _ & -> & Hlen).
  set (names := map (fun fp => key self fp) paths) in *.
  assert (key self filepath ∈ pairs.*1) as Hin.
  { rewrite Hperm, fst_zip by (unfold names; rewrite length_map; lia).
    apply list_elem_of_lookup. exists i. unfold names.
    by rewrite list_lookup_fmap, Hi. }
  destruct (store_all_some_pair pairs (files w1) _ Hin) as (e & He & Hlook).
  rewrite Hperm in He. apply elem_of_lookup_zip_with in He as (j & k & e' & Heq & Hk & He').
  injection Heq as <- <-. unfold names in Hk. rewrite list_lookup_fmap in Hk.
  destruct (paths !! j) as [other |] eqn:Hother; [| done].
  injection Hk as Hk. by exists j, other, e.
Qed.
(** ** Further properties of the partition and of the secondary scan *)

(** X8: [split_cache_between_processes] never depends on what the backend
    holds: it stores what the accelerator returns for the empty list and
    leaves the world as it is, so the worklist of a [process_directory]
    that follows comes from the secondary scan alone. *)
Theorem split_cache_ignores_backend self (directory : string) w :
  split_cache_between_processes self w
  = (set_local_unprocessed_files self (split_between_processes []), (w, Ok tt))
  /\ local_unprocessed_files
       (process_directory (split_cache_between_processes self w).1 directory
          (split_cache_between_processes self w).2.1).1
     = Some (shuffle (rng w)
               (split_between_processes [] ++ secondary_scan self directory (files w))).
Proof.
  assert (split_cache_between_processes self w
          = (set_local_unprocessed_files self (split_between_processes []), (w, Ok tt)))
    as Hsplit.
  { unfold split_cache_between_processes. by rewrite discover_unprocessed_files_nil. }
  split; [done |]. rewrite Hsplit. reflexivity.
Qed.

Lemma contains_prefix (c : ascii) (s : string) :
  startswith s (String c "") = true -> contains c s = true.
Proof.
  unfold startswith. destruct s as [|a s]; simpl; [done |].
  destruct (ascii_dec c a) as [-> | ?]; [| done]. by rewrite Ascii.eqb_refl.
Qed.

Lemma contains_drop (c : ascii) (n : nat) (s : string) :
  contains c (drop n s) = true -> contains c s = true.
Proof.
  revert s. induction n as [|n IH]; intros [|a s]; simpl; try done.
  intros H. by rewrite (IH _ H), orb_true_r.
Qed.

Lemma contains_take (c : ascii) (n : nat) (s : string) :
  contains c (take n s) = true -> contains c s = true.
Proof.
  revert s. induction n as [|n IH]; intros [|a s]; simpl; try done.
  intros [-> | H]%orb_true_iff; [done |]. by rewrite (IH _ H), orb_true_r.
Qed.

Lemma contains_suffix (c : ascii) (s : string) :
  endswith s (String c "") = true -> contains c s = true.
Proof.
  unfold endswith. intros [_ H]%andb_true_iff. apply String.eqb_eq in H.
  apply (contains_drop c (String.length s - String.length (String c ""))).
  rewrite H. simpl. by rewrite Ascii.eqb_refl.
Qed.

Lemma contains_join (subdir file : string) :
  subdir <> "" -> contains "/" (os_path.join subdir file) = true.
Proof.
  intros Hne. unfold os_path.join. change (String os_path.sep "") with "/".
  destruct (startswith file "/") eqn:Hpre; [by apply contains_prefix |].
  destruct (String.eqb subdir "") eqn:Hempty; [by apply String.eqb_eq in Hempty |].
  simpl. destruct (endswith subdir "/") eqn:Hsuf.
  - rewrite contains_append. by rewrite (contains_suffix _ _ Hsuf).
  - rewrite !contains_append. simpl. by rewrite orb_true_r.
Qed.

Lemma take_append_ge (n : nat) (a b : string) :
  (String.length a <= n)%nat -> take n (a +:+ b) = a +:+ take (n - String.length a) b.
Proof.
  revert n. induction a as [|x a IH]; intros n Hn.
  - rewrite !append_nil_l. simpl. by rewrite Nat.sub_0_r.
  - destruct n as [|n]; [simpl in Hn; lia |].
    rewrite !append_cons. simpl. rewrite IH by (simpl in Hn; lia). done.
Qed.

(** The root that [splitext] returns keeps the directory part. *)
Lemma splitext_root_contains_sep (p : string) :
  contains "/" p = true -> contains "/" (os_path.splitext p).1 = true.
Proof.
  intros Hp. unfold os_path.splitext.
  destruct (rfind_present os_path.sep p Hp) as (pre & post & Heq & Hpost & Hsep).
  rewrite Hsep.
  destruct ((Z.of_nat (String.length pre) <? rfind os_path.extsep p)
            && os_path.skip_leading_dots p (Z.of_nat (String.length pre) + 1)
                 (Z.to_nat (rfind os_path.extsep p - (Z.of_nat (String.length pre) + 1))))
    eqn:Hsplit; [| done].
  apply andb_true_iff in Hsplit as [Hlt _]. apply Z.ltb_lt in Hlt. simpl.
  rewrite Heq at 2. rewrite take_append_ge by lia.
  rewrite contains_append.
  destruct (Z.to_nat (rfind os_path.extsep p) - String.length pre)%nat eqn:Hn; [lia |].
  simpl. by rewrite orb_true_r.
Qed.

Lemma splitext_root_no_sep (p : string) :
  contains "/" p = false -> contains "/" (os_path.splitext p).1 = false.
Proof.
  intros Hp. unfold os_path.splitext.
  destruct (_ && _); [| done]. simpl.
  destruct (contains "/" (take (Z.to_nat (rfind os_path.extsep p)) p)) eqn:H; [| done].
  apply contains_take in H. congruence.
Qed.

(** X9: the secondary scan compares the bare stem of an image with the
    stems of the cache files as listed, joined to their subdirectory.  On
    a backend that lists every cache file under a non-empty subdirectory
    and image files by bare name, no image is ever recognised as cached:
    the scan appends every listed image, whatever the cache holds. *)
Theorem secondary_scan_skips_nothing self (directory : string) fs :
  (forall subdir names,
     (subdir, names) ∈ list_files fs "*.pt" (cache_dir self) -> subdir <> "") ->
  (forall subdir names file,
     (subdir, names) ∈ list_files fs image_pattern directory ->
     file ∈ names -> contains "/" file = false) ->
  secondary_scan self directory fs
  = flat_map (fun '(subdir, names) => map (os_path.join subdir) names)
      (list_files fs image_pattern directory).
Proof.
  intros Hcache Himg. unfold secondary_scan, scan_new_files.
  set (existing := existing_pt_files _).
  assert (forall stem, stem ∈ existing -> contains "/" stem = true) as Hex.
  { intros stem. unfold existing, existing_pt_files.
    rewrite elem_of_list_to_set, list_elem_of_In, in_flat_map.
    intros ([subdir names] & Hin & Hstem).
    apply in_map_iff in Hstem as (file & <- & _).
    apply list_elem_of_In in Hin. specialize (Hcache _ _ Hin).
    destruct (String.eqb subdir "") eqn:Hempty; [by apply String.eqb_eq in Hempty |].
    simpl. by apply splitext_root_contains_sep, contains_join. }
  induction (list_files fs image_pattern directory) as [|[subdir names] listing IH];
    [done |].
  simpl. f_equal.
  - f_equal. apply forallb_filter_id, forallb_forall. intros file Hfile.
    apply negb_true_iff, bool_decide_eq_false. intros Hin.
    apply Hex in Hin. apply list_elem_of_In in Hfile.
    rewrite splitext_root_no_sep in Hin; [done |].
    apply (Himg subdir names); [apply list_elem_of_here | done].
  - apply IH. intros sd ns file Hin. apply (Himg sd ns file). by apply list_elem_of_further.
Qed.

(** ** Further properties of the main loop *)

(** Membership in worklists built with [++] and [::]. *)
Ltac list_member :=
  repeat match goal with
         | H : _ ∈ _ ++ _ |- _ => apply elem_of_app in H
         | H : _ ∈ _ :: _ |- _ => apply elem_of_cons in H
         | H : _ ∈ [] |- _ => by apply elem_of_nil in H
         | H : _ \/ _ |- _ => destruct H
         end;
  subst; rewrite ?elem_of_app, ?elem_of_cons; auto.

Lemma process_files_flush_step self (rest cur : list string) (batch : list Pixel) w :
  bind (encode_image_batch self batch cur)
    (fun '(full_filenames, batch_latents) =>
       bind (backend_write_batch full_filenames batch_latents)
         (fun _ => process_files self rest [] [])) w
  = match encode_image_batch self batch cur w with
    | (w1, Ok (names, lats)) =>
        process_files self rest [] [] (backend_write_batch names lats w1).1
    | (w1, Raise e) => (w1, Raise e)
    end.
Proof.
  unfold bind at 1.
  by destruct (encode_image_batch self batch cur w) as [w1 [[names lats] | e]].
Qed.

Lemma touches_refl self (items : list string) fs : touches self items fs fs.
Proof. intros k. by left. Qed.

Lemma touches_trans self (items : list string) fs1 fs2 fs3 :
  touches self items fs1 fs2 -> touches self items fs2 fs3 -> touches self items fs1 fs3.
Proof.
  intros H12 H23 k.
  destruct (H23 k) as [-> | [? | ?]]; [apply H12 | by right; left | by right; right].
Qed.

Lemma touches_store_all self (items paths : list string) lats fs :
  (forall fp, fp ∈ paths -> fp ∈ items) ->
  touches self items fs (store_all (map (fun fp => key self fp) paths) lats fs).
Proof.
  intros Hsub k.
  destruct (decide (k ∈ map (fun fp => key self fp) paths)) as [Hin | Hnin].
  - destruct (store_all_cases (map (fun fp => key self fp) paths) lats fs k) as [? | [t Ht]];
      [by left |].
    right; left. apply list_elem_of_fmap in Hin as (fp & -> & Hfp).
    exists fp, t. split; [by apply Hsub | done].
  - left. by apply store_all_lookup_other.
Qed.

Lemma touches_delete self (items : list string) fs (filepath : string) :
  delete_problematic_images self = true -> filepath ∈ items ->
  touches self items fs (delete filepath fs).
Proof.
  intros Hflag Hin k. destruct (decide (filepath = k)) as [<- | Hne].
  - right; right. by rewrite lookup_delete_eq.
  - left. by rewrite lookup_delete_ne.
Qed.

Lemma touches_flush self (items paths : list string) (batch : list Pixel) w :
  (forall fp, fp ∈ paths -> fp ∈ items) ->
  match encode_image_batch self batch paths w with
  | (w1, Ok (names, lats)) =>
      touches self items (files w) (files (backend_write_batch names lats w1).1)
  | (w1, Raise e) => files w1 = files w
  end.
Proof.
  intros Hsub.
  pose proof (encode_image_batch_frame self batch paths w) as (Hfiles & _ & _).
  destruct (encode_image_batch self batch paths w) as [w1 [[names lats] | e]] eqn:Hrun;
    [| done].
  apply encode_image_batch_inv in Hrun as (_ & _ & -> & _).
  simpl in *. rewrite Hfiles. by apply touches_store_all.
Qed.

Lemma process_files_touches self (items l cur : list string) (batch : list Pixel) w :
  (forall fp, fp ∈ cur \/ fp ∈ l -> fp ∈ items) ->
  touches self items (files w) (files (process_files self l cur batch w).1).
Proof.
  revert cur batch w. induction l as [|fp l IH]; intros cur batch w Hsub.
  - apply touches_refl.
  - destruct (files w !! key self fp) as [f |] eqn:Hkey.
    { rewrite process_files_cached by (rewrite Hkey; eauto).
      apply IH. intros fp' Hfp'. apply Hsub. list_member. }
    destruct (load_pixel_values_world (resolution self) fp w) as [[p | e] Hload].
    + rewrite (process_files_decoded self fp l cur batch w p Hkey Hload).
      destruct (Z.of_nat (length (batch ++ [p])) =? write_batch_size self).
      * rewrite process_files_flush_step.
        pose proof (touches_flush self items (cur ++ [fp]) (batch ++ [p]) w) as Hflush.
        destruct (encode_image_batch self (batch ++ [p]) (cur ++ [fp]) w)
          as [w1 [[names lats] | e]].
        -- eapply touches_trans; [apply Hflush | apply IH].
           ++ intros fp' Hfp'. apply Hsub. list_member.
           ++ intros fp' Hfp'. apply Hsub. list_member.
        -- simpl. rewrite Hflush; [apply touches_refl |].
           intros fp' Hfp'. apply Hsub. list_member.
      * apply IH. intros fp' Hfp'. apply Hsub. list_member.
    + destruct (failure_policy_catches e) eqn:He.
      * rewrite (process_files_caught self fp l cur batch w e Hkey Hload He).
        eapply touches_trans; [| apply IH].
        -- destruct (delete_problematic_images self) eqn:Hflag; [| apply touches_refl].
           apply touches_delete; [done |]. apply Hsub. list_member.
        -- intros fp' Hfp'. apply Hsub. list_member.
      * rewrite (process_files_uncaught self fp l cur batch w e Hkey Hload He).
        apply touches_refl.
Qed.

(** X10: whatever its outcome, [process_directory] changes the backend
    only at the cache keys of the items of its worklist, where it leaves
    tensors, and at the items themselves, which it may delete, and only
    when [delete_problematic_images] is set; every other path keeps its
    file. *)
Theorem process_directory_touches self (directory : string) w (partition : list string) :
  local_unprocessed_files self = Some partition ->
  touches self (shuffle (rng w) (partition ++ secondary_scan self directory (files w)))
    (files w) (files (process_directory self directory w).2.1).
Proof.
  intros Hpart. unfold process_directory. rewrite Hpart.
  set (l := shuffle (rng w) _). set (self' := set_local_unprocessed_files self l).
  set (w0 := mkWorld _ _ _ _). cbn [snd fst].
  assert (forall fs fs', touches self' l fs fs' -> touches self l fs fs') as Hself.
  { intros fs fs' H k. destruct (H k) as [? | [(fp & t & ? & ? & ?) | ?]];
      [by left | right; left; by exists fp, t | by right; right]. }
  apply Hself. change (files w) with (files w0).
  pose proof (process_files_touches self' l l [] [] w0) as Hloop.
  unfold bind.
  destruct (process_files self' l [] [] w0) as [w1 [[cur batch] | e]];
    [| apply Hloop; intros fp Hfp; list_member].
  eapply touches_trans; [apply Hloop; intros fp Hfp; list_member |].
  simpl. unfold flush_remaining. destruct batch as [|p batch]; [apply touches_refl |].
  pose proof (touches_flush self' l l (p :: batch) w1 (fun fp H => H)) as Hflush.
  unfold bind.
  destruct (encode_image_batch self' (p :: batch) l w1) as [w2 [[names lats] | e]];
    [done |].
  simpl. rewrite Hflush. apply touches_refl.
Qed.

Lemma encode_image_batch_vae_calls self (pixels : list Pixel) paths w :
  pixels <> [] ->
  vae_calls (encode_image_batch self pixels paths w).1 = vae_calls w ++ [pixels].
Proof.
  intros Hne. pose proof (encode_image_batch_frame self pixels paths w) as (_ & _ & H).
  by destruct pixels.
Qed.

Lemma process_files_flush_sizes self (l cur : list string) (batch : list Pixel) w :
  length cur = length batch ->
  (0 < write_batch_size self -> Z.of_nat (length batch) < write_batch_size self) ->
  exists new newv,
    flushes (process_files self l cur batch w).1 = flushes w ++ new
    /\ vae_calls (process_files self l cur batch w).1 = vae_calls w ++ newv
    /\ Forall (fun flush => Z.of_nat (length flush.1) = write_batch_size self
                            /\ length flush.2 = length flush.1) new
    /\ Forall (fun pixels => Z.of_nat (length pixels) = write_batch_size self) newv
    /\ (write_batch_size self <= 0 -> new = [] /\ newv = [])
    /\ forall cur' batch',
         (process_files self l cur batch w).2 = Ok (cur', batch') ->
         length cur' = length batch'
         /\ (0 < write_batch_size self ->
             Z.of_nat (length batch') < write_batch_size self).
Proof.
  revert cur batch w. induction l as [|fp l IH]; intros cur batch w Hlen Hsmall.
  - exists [], []. simpl. rewrite !app_nil_r. repeat split; try done.
    + by injection H as <- <-.
    + injection H as <- <-. auto.
  - destruct (files w !! key self fp) as [f |] eqn:Hkey.
    { rewrite process_files_cached by (rewrite Hkey; eauto). by apply IH. }
    destruct (load_pixel_values_world (resolution self) fp w) as [[p | e] Hload].
    + rewrite (process_files_decoded self fp l cur batch w p Hkey Hload).
      destruct (Z.of_nat (length (batch ++ [p])) =? write_batch_size self) eqn:Hfull.
      * apply Z.eqb_eq in Hfull. rewrite process_files_flush_step.
        assert (batch ++ [p] <> []) as Hne by (by destruct batch).
        pose proof (encode_image_batch_frame self (batch ++ [p]) (cur ++ [fp]) w)
          as (_ & Hfl & _).
        pose proof (encode_image_batch_vae_calls self (batch ++ [p]) (cur ++ [fp]) w Hne)
          as Hvae.
        destruct (encode_image_batch self (batch ++ [p]) (cur ++ [fp]) w)
          as [w1 [[names lats] | e]] eqn:Hrun; simpl in Hfl, Hvae.
        -- apply encode_image_batch_inv in Hrun as (_ & _ & -> & Hlats).
           set (names := map _ (cur ++ [fp])) in *.
           assert (Z.of_nat (length names) = write_batch_size self) as Hnames.
           { unfold names. rewrite length_map, length_app, Hlen, <- Hfull, length_app. done. }
           set (w2 := (backend_write_batch names lats w1).1).
           assert (flushes w2 = flushes w ++ [(names, lats)]) as Hf2
             by (simpl; by rewrite Hfl).
           assert (vae_calls w2 = vae_calls w ++ [batch ++ [p]]) as Hv2 by done.
           clearbody w2.
           destruct (IH [] [] w2 eq_refl)
             as (new & newv & Hnew & Hnewv & Hsizes & Hvsizes & Hnone & Hret).
           { intros HB. simpl. lia. }
           exists ((names, lats) :: new), ((batch ++ [p]) :: newv).
           rewrite Hnew, Hnewv, Hf2, Hv2, <- !app_assoc. simpl.
           split; [done |]. split; [done |].
           split; [constructor; [| done]; simpl; split; [done |];
                   unfold names; by rewrite length_map |].
           split; [by constructor |]. split; [| exact Hret].
           intros HB. rewrite length_app in Hfull. simpl in Hfull. lia.
        -- exists [], [batch ++ [p]]. simpl. rewrite app_nil_r.
           split; [done |]. split; [done |]. split; [done |].
           split; [by repeat constructor |]. split; [| done].
           intros HB. rewrite length_app in Hfull. simpl in Hfull. lia.
      * apply Z.eqb_neq in Hfull. apply IH.
        -- rewrite !length_app. simpl. lia.
        -- intros HB. specialize (Hsmall HB). rewrite length_app in *. simpl in *. lia.
    + destruct (failure_policy_catches e) eqn:He.
      * rewrite (process_files_caught self fp l cur batch w e Hkey Hload He).
        set (w1 := if delete_problematic_images self then _ else w).
        assert (flushes w1 = flushes w /\ vae_calls w1 = vae_calls w) as [Hf Hv]
          by (unfold w1; by destruct (delete_problematic_images self)).
        rewrite <- Hf, <- Hv. by apply IH.
      * rewrite (process_files_uncaught self fp l cur batch w e Hkey Hload He).
        exists [], []. simpl. rewrite !app_nil_r. repeat split; done.
Qed.

(** X11: in the main loop of [process_directory], every flush writes
    exactly [write_batch_size] file names with as many embeddings, and
    every VAE call is on exactly [write_batch_size] pixel tensors, whatever
    the outcome of the loop; with a [write_batch_size] of zero or less the
    loop never calls the VAE and never flushes; and when the loop returns
    with a positive [write_batch_size], fewer than [write_batch_size] items
    wait in the batch. *)
Theorem main_loop_flushes_full_batches self (files_to_process : list string) w :
  exists new newv,
    flushes (process_files self files_to_process [] [] w).1 = flushes w ++ new
    /\ vae_calls (process_files self files_to_process [] [] w).1 = vae_calls w ++ newv
    /\ Forall (fun flush => Z.of_nat (length flush.1) = write_batch_size self
                            /\ length flush.2 = length flush.1) new
    /\ Forall (fun pixels => Z.of_nat (length pixels) = write_batch_size self) newv
    /\ (write_batch_size self <= 0 -> new = [] /\ newv = [])
    /\ forall cur' batch',
         (process_files self files_to_process [] [] w).2 = Ok (cur', batch') ->
         length cur' = length batch'
         /\ (0 < write_batch_size self ->
             Z.of_nat (length batch') < write_batch_size self).
Proof. apply process_files_flush_sizes; [done | simpl; lia]. Qed.

(** ** Runs over fresh worklists *)

Lemma fresh_ext self self' fs (filepath : string) :
  cache_dir self = cache_dir self' -> resolution self = resolution self' ->
  fresh self fs filepath -> fresh self' fs filepath.
Proof.
  intros Hdir Hres. unfold fresh, decodable.
  by rewrite (generate_filename_ext self self' filepath Hdir), Hres.
Qed.

Lemma fresh_load self (filepath : string) w :
  fresh self (files w) filepath ->
  files w !! key self filepath = None
  /\ exists p, load_pixel_values (resolution self) filepath w = (w, Ok p).
Proof.
  unfold fresh, decodable, load_pixel_values. intros [Hkey Hdec]. split; [done |].
  destruct (files w !! filepath) as [[c | t] |]; [| done | done].
  destruct (decode_image c (resolution self)) as [p | e]; [eauto | done].
Qed.

Lemma fresh_store_all self fs names lats (filepath : string) :
  fresh self fs filepath ->
  key self filepath ∉ names -> filepath ∉ names ->
  fresh self (store_all names lats fs) filepath.
Proof.
  unfold fresh, decodable. intros [Hkey Hdec] Hk Hfp.
  by rewrite !store_all_lookup_other.
Qed.

Lemma length_concat_full (new : list (list string * list Tensor)) (b : nat) :
  Forall (fun flush => length flush.1 = b /\ length flush.2 = b) new ->
  length (concat (map fst new)) = (b * length new)%nat.
Proof.
  induction 1 as [|[names lats] new [Hn _] _ IH]; simpl; [lia |].
  rewrite length_app, IH. simpl in Hn. lia.
Qed.

(** The main loop on items that all decode and have no cache entry, with
    pairwise different cache keys: it returns, having flushed the items in
    order, [b] at a time, and holding the rest, fewer than [b], in the
    batch. *)
Lemma process_files_fresh self (b : nat) (l cur : list string) (batch : list Pixel) w :
  write_batch_size self = Z.of_nat b ->
  length cur = length batch -> (length batch < b)%nat ->
  NoDup (map (fun fp => key self fp) (cur ++ l)) ->
  Forall (fresh self (files w)) (cur ++ l) ->
  exists w' new flushed cur' batch',
    process_files self l cur batch w = (w', Ok (cur', batch'))
    /\ flushes w' = flushes w ++ new
    /\ cur ++ l = flushed ++ cur'
    /\ concat (map fst new) = map (fun fp => key self fp) flushed
    /\ Forall (fun flush => length flush.1 = b /\ length flush.2 = b) new
    /\ length cur' = length batch' /\ (length batch' < b)%nat
    /\ Forall (fresh self (files w')) cur'
    /\ (forall fp, fp ∈ flushed -> exists t, files w' !! key self fp = Some (TensorFile t))
    /\ (forall k t, files w !! k = Some (TensorFile t) ->
                    exists t', files w' !! k = Some (TensorFile t')).
Proof.
  intros HB. revert cur batch w.
  induction l as [|fp l IH]; intros cur batch w Hlen Hsmall Hdup Hfresh.
  - exists w, [], [], cur, batch. simpl. rewrite !app_nil_r in *.
    repeat split; try done.
    + intros fp Hfp. by apply elem_of_nil in Hfp.
    + eauto.
  - assert (cur ++ fp :: l = (cur ++ [fp]) ++ l) as Hassoc by (by rewrite <- app_assoc).
    assert (fresh self (files w) fp) as Hfp.
    { rewrite Forall_forall in Hfresh. apply Hfresh. list_member. }
    destruct (fresh_load _ _ _ Hfp) as (Hkey & p & Hload).
    rewrite (process_files_decoded self fp l cur batch w p Hkey Hload).
    rewrite Hassoc in Hdup, Hfresh |- *.
    destruct (Z.of_nat (length (batch ++ [p])) =? write_batch_size self) eqn:Hfull.
    + apply Z.eqb_eq in Hfull. rewrite HB, length_app in Hfull. simpl in Hfull.
      rewrite process_files_flush_step.
      apply Forall_app in Hfresh as [Hbatch Hrest].
      rewrite map_app in Hdup. apply NoDup_app in Hdup as (_ & Hdisj & Hdup).
      destruct (encode_image_batch_ok self (batch ++ [p]) (cur ++ [fp]) w)
        as (out & Hrun & Hout & _).
      { by destruct cur. }
      { rewrite !length_app. simpl. lia. }
      { eapply Forall_impl; [exact Hbatch |]. intros x [Hx _] c. by rewrite Hx. }
      rewrite Hrun. set (names := map (fun fp => key self fp) (cur ++ [fp])) in *.
      set (w2 := (backend_write_batch names out _).1).
      assert (files w2 = store_all names out (files w)) as Hf2 by done.
      assert (flushes w2 = flushes w ++ [(names, out)]) as Hfl2 by done.
      clearbody w2.
      destruct (IH [] [] w2 eq_refl) as
        (w' & new & flushed & cur' & batch' & Hloop & Hfl & Hsplit & Hconcat & Hsizes
         & Hlen' & Hsmall' & Hfresh' & Hwritten & Hkeep).
      { simpl. lia. }
      { done. }
      { rewrite Hf2. apply Forall_forall. intros x Hx.
        rewrite Forall_forall in Hrest. apply fresh_store_all; [by apply Hrest | |].
        - intros Hin. apply (Hdisj _ Hin). apply list_elem_of_fmap. eauto.
        - intros Hin. unfold names in Hin.
          apply list_elem_of_fmap in Hin as (y & -> & Hy).
          rewrite Forall_forall in Hbatch. destruct (Hbatch y Hy) as [Hnone _].
          destruct (Hrest (key self y) Hx) as [_ Hdec].
          unfold decodable in Hdec. by rewrite Hnone in Hdec. }
      exists w', ((names, out) :: new), ((cur ++ [fp]) ++ flushed), cur', batch'.
      split; [done |]. split; [by rewrite Hfl, Hfl2, <- app_assoc |].
      simpl in Hsplit. split; [by rewrite Hsplit, <- !app_assoc |].
      split; [simpl; by rewrite Hconcat, map_app |].
      split.
      { constructor; [| done]. simpl. unfold names.
        rewrite length_map, Hout, !length_app. simpl. lia. }
      split; [done |]. split; [done |]. split; [done |].
      split.
      * intros x [Hx | Hx]%elem_of_app; [| by apply Hwritten].
        destruct (store_all_written names out (files w) (key self x)) as [t Ht].
        { unfold names. rewrite length_map. lia. }
        { apply list_elem_of_fmap. eauto. }
        apply (Hkeep _ t). by rewrite Hf2.
      * intros k t Hk.
        destruct (store_all_cases names out (files w) k) as [Hsame | [t' Ht']].
        -- apply (Hkeep k t). by rewrite Hf2, Hsame.
        -- apply (Hkeep k t'). by rewrite Hf2.
    + apply Z.eqb_neq in Hfull. rewrite HB, length_app in Hfull. simpl in Hfull.
      apply IH; [| | done | done].
      * rewrite !length_app. simpl. lia.
      * rewrite length_app. simpl. lia.
Qed.

(** The loop and the flush that follows it, on a fresh worklist. *)
Lemma run_body_fresh self (b : nat) (l : list string) w :
  write_batch_size self = Z.of_nat b -> (0 < b)%nat ->
  NoDup (map (fun fp => key self fp) l) ->
  Forall (fresh self (files w)) l ->
  exists new w' r,
    bind (process_files self l [] [])
      (fun '(_, batch_pixel_values) => flush_remaining self l batch_pixel_values) w
    = (w', r)
    /\ flushes w' = flushes w ++ new
    /\ (((length l mod b = 0)%nat /\ r = Ok tt
         /\ (length new = length l / b)%nat
         /\ Forall (fun flush => length flush.1 = b /\ length flush.2 = b) new
         /\ concat (map fst new) = map (fun fp => key self fp) l)
        \/ ((0 < length l < b)%nat /\ r = Ok tt
            /\ map fst new = [map (fun fp => key self fp) l])
        \/ ((length l mod b <> 0)%nat /\ (b < length l)%nat /\ r = Raise IndexError
            /\ (length new = length l / b)%nat
            /\ Forall (fun flush => length flush.1 = b /\ length flush.2 = b) new
            /\ concat (map fst new)
               = map (fun fp => key self fp) (firstn (length l / b * b)%nat l))).
Proof.
  intros HB Hb Hdup Hfresh.
  destruct (process_files_fresh self b l [] [] w HB eq_refl Hb Hdup Hfresh)
    as (w' & new & flushed & cur' & batch' & Hloop & Hfl & Hsplit & Hconcat & Hsizes
        & Hlen' & Hsmall' & Hfresh' & Hwritten & _).
  simpl in Hsplit. erewrite bind_ok by exact Hloop.
  assert (length flushed = (b * length new)%nat) as Hflushed.
  { rewrite <- (length_concat_full new b Hsizes), Hconcat. by rewrite length_map. }
  assert (length l = (b * length new + length cur')%nat) as Hk
    by (rewrite Hsplit, length_app; lia).
  assert (Forall (fun fp => forall c, files w' !! key self fp <> Some (ImageFile c)) l)
    as Hload.
  { rewrite Hsplit. apply Forall_app. split; apply Forall_forall; intros fp Hfp c.
    - destruct (Hwritten fp Hfp) as [t ->]. done.
    - rewrite Forall_forall in Hfresh'. destruct (Hfresh' fp Hfp) as [-> _]. done. }
  destruct batch' as [|p batch'].
  - destruct cur'; [| done]. rewrite app_nil_r in Hsplit. subst flushed.
    exists new, w', (Ok tt). split; [done |]. split; [done |]. left.
    simpl in Hk. split; [| split; [done |]; split; [| done]].
    + symmetry. apply (Nat.mod_unique _ _ (length new)); lia.
    + apply (Nat.div_unique _ _ _ 0%nat); lia.
  - assert (0 < length cur')%nat as Hpos by (rewrite Hlen'; simpl; lia).
    destruct new as [|flush new].
    + simpl in Hconcat. symmetry in Hconcat. apply map_eq_nil in Hconcat. subst flushed.
      simpl in Hsplit. subst cur'.
      destruct (encode_image_batch_ok self (p :: batch') l w') as (out & Hrun & _ & _);
        [by destruct l | lia | done |].
      eexists [(_, out)], _, (Ok tt). split.
      { unfold flush_remaining. erewrite bind_ok by exact Hrun. reflexivity. }
      split; [simpl; by rewrite Hfl, app_nil_r |].
      right; left. split; [lia | done].
    + eexists (flush :: new), _, _. split.
      { apply flush_remaining_index_error; [done | | done]. simpl in *. lia. }
      split; [done |]. right; right. simpl in Hk.
      assert (length l / b = S (length new))%nat as Hdiv
        by (symmetry; apply (Nat.div_unique _ _ _ (length cur')); simpl; lia).
      split; [| split; [nia |]; split; [done |]; split; [done |]; split; [done |]].
      * assert (length l mod b = length cur')%nat as ->
          by (symmetry; apply (Nat.mod_unique _ _ (S (length new))); simpl in *; lia).
        lia.
      * rewrite Hconcat. f_equal. rewrite Hdiv.
        replace (S (length new) * b)%nat with (length flushed) by (simpl in *; lia).
        by rewrite Hsplit, take_app_length.
Qed.

(** X12: a run over a worklist of [K] items that all decode, have no cache
    entry and have pairwise different cache keys, with a positive
    [write_batch_size] [b]: the loop flushes the items in worklist order,
    [b] at a time.  When [b] divides [K] the run returns after [K / b]
    flushes; when [0 < K < b] it returns after one flush of all [K] items;
    otherwise it ends in an [IndexError] after [K / b] flushes, which cover
    the first [(K / b) * b] items only. *)
Theorem process_directory_flush_count self (directory : string) w
    (partition : list string) (b : nat) :
  local_unprocessed_files self = Some partition ->
  write_batch_size self = Z.of_nat b -> (0 < b)%nat ->
  NoDup (map (fun fp => key self fp)
           (shuffle (rng w) (partition ++ secondary_scan self directory (files w)))) ->
  Forall (fresh self (files w))
    (shuffle (rng w) (partition ++ secondary_scan self directory (files w))) ->
  exists new l,
    l = shuffle (rng w) (partition ++ secondary_scan self directory (files w))
    /\ flushes (process_directory self directory w).2.1 = flushes w ++ new
    /\ (((length l mod b = 0)%nat /\ (process_directory self directory w).2.2 = Ok tt
         /\ (length new = length l / b)%nat
         /\ Forall (fun flush => length flush.1 = b /\ length flush.2 = b) new
         /\ concat (map fst new) = map (fun fp => key self fp) l)
        \/ ((0 < length l < b)%nat /\ (process_directory self directory w).2.2 = Ok tt
            /\ map fst new = [map (fun fp => key self fp) l])
        \/ ((length l mod b <> 0)%nat /\ (b < length l)%nat
            /\ (process_directory self directory w).2.2 = Raise IndexError
            /\ (length new = length l / b)%nat
            /\ Forall (fun flush => length flush.1 = b /\ length flush.2 = b) new
            /\ concat (map fst new)
               = map (fun fp => key self fp) (firstn (length l / b * b)%nat l))).
Proof.
  intros Hpart HB Hb Hdup Hfresh. unfold process_directory. rewrite Hpart.
  set (l := shuffle (rng w) _) in *. set (self' := set_local_unprocessed_files self l).
  set (w0 := mkWorld _ _ _ _).
  assert (forall l', map (fun fp => key self' fp) l' = map (fun fp => key self fp) l')
    as Hkey by (intros l'; apply map_ext; intros fp; by rewrite (generate_filename_ext self' self)).
  destruct (run_body_fresh self' b l w0) as (new & w' & r & Hrun & Hfl & Hcases);
    [done | done | by rewrite Hkey | |].
  { eapply Forall_impl; [exact Hfresh |]. intros fp. by apply fresh_ext. }
  exists new, l. split; [done |]. cbn [snd fst]. rewrite Hrun. cbn [snd fst].
  split; [done |]. by rewrite !Hkey in Hcases.
Qed.

(** X13: when [process_directory] returns normally on a worklist without
    [.pt] paths, nothing is left to encode: every item of the worklist has
    a cache entry or cannot be decoded. *)
Theorem normal_return_settles_worklist self (directory : string) w self' w'
    (partition : list string) :
  local_unprocessed_files self = Some partition ->
  process_directory self directory w = (self', (w', Ok tt)) ->
  Forall (fun fp => endswith fp ".pt" = false)
    (shuffle (rng w) (partition ++ secondary_scan self directory (files w))) ->
  Forall (settled self (files w'))
    (shuffle (rng w) (partition ++ secondary_scan self directory (files w))).
Proof.
  intros Hpart Hrun Hpt.
  by destruct (process_directory_settles _ _ _ _ _ _ Hpart Hrun Hpt) as [_ H].
Qed.

End Facts.

(** ** The statements at concrete inputs *)

Example basename_ex : os_path.basename "imgs/cats/a.png" = "a.png".
Proof. reflexivity. Qed.

Example splitext_ex : os_path.splitext "a.tar.gz" = ("a.tar", ".gz").
Proof. reflexivity. Qed.

Example splitext_hidden : os_path.splitext "dir/.bashrc" = ("dir/.bashrc", "").
Proof. reflexivity. Qed.

Example splitext_dots : os_path.splitext "..a.b" = ("..a", ".b").
Proof. reflexivity. Qed.

Example join_ex : os_path.join "vae_cache" "a.pt" = "vae_cache/a.pt".
Proof. reflexivity. Qed.

Example join_slash : os_path.join "vae_cache/" "a.pt" = "vae_cache/a.pt".
Proof. reflexivity. Qed.

Example generate_filename_ex :
  _generate_filename (Sample.cache 25 false None) "imgs/cats/a.png"
  = ("vae_cache/a.pt", "a.pt").
Proof. reflexivity. Qed.

(** C1: on a first run, with one source image and an empty cache
    directory, the image is enumerated and its cache key has no entry, yet
    [discover_unprocessed_files] returns the empty list. *)
Theorem discover_returns_nothing_on_first_run :
  "imgs/f0.png" ∈ all_files (collab := Sample.collab) (Sample.source 1) "imgs"
  /\ Sample.source 1
     !! (_generate_filename (Sample.cache 25 false None) "imgs/f0.png").1 = None
  /\ discover_unprocessed_files (collab := Sample.collab)
       (Sample.cache 25 false None) "imgs" (Sample.world (Sample.source 1))
     = (Sample.world (Sample.source 1), Ok []).
Proof.
  split; [| split].
  - vm_compute. reflexivity.
  - vm_compute. reflexivity.
  - apply discover_unprocessed_files_nil.
Qed.

(** C7: a file [A.JPG] that the listing returns for the image pattern is
    not among the source items that [discover_unprocessed_files]
    enumerates. *)
Theorem uppercase_extension_not_enumerated :
  list_files (Collaborators := Sample.collab) Sample.upper image_pattern "imgs"
  = [("imgs", ["A.JPG"])]
  /\ all_files (collab := Sample.collab) Sample.upper "imgs" = ∅.
Proof. split; vm_compute; reflexivity. Qed.

(** C2: 53 decodable images and a write batch size of 25: two flushes of
    25 are written, the VAE is invoked a third time on the last 3 pixel
    tensors, and the run ends in an [IndexError] before a third flush. *)
Theorem backlog_53_batch_25_raises :
  let out := Sample.run (Sample.cache 25 false (Some [])) (Sample.world (Sample.source 53)) in
  out.2.2 = Raise IndexError
  /\ map (fun flush => length flush.1) (flushes out.2.1) = [25; 25]%nat
  /\ map length (vae_calls out.2.1) = [25; 25; 3]%nat
  /\ size (files out.2.1) = 103%nat.
Proof. vm_compute. repeat split; reflexivity. Qed.

(** C8 at the two-image bucket: the second image has no cache entry and
    gets twice its latent. *)
Lemma encode_image_batch_scaled_witness :
  exists names embeddings w',
    encode_image_batch (collab := Sample.collab) (Sample.cache 25 false None)
      [0; 1] ["imgs/f0.png"; "imgs/f1.png"] (Sample.world Sample.raced)
    = (w', Ok (names, embeddings))
    /\ vae_calls w' = vae_calls (Sample.world Sample.raced) ++ [[0; 1]]
    /\ length embeddings = 2%nat
    /\ forall i fp,
         ["imgs/f0.png"; "imgs/f1.png"] !! i = Some fp ->
         files (Sample.world Sample.raced)
           !! (_generate_filename (Sample.cache 25 false None) fp).1 = None ->
         embeddings !! i
         = Some (Sample.latent 0%nat [0; 1] i * 2).
Proof.
  apply (encode_image_batch_scaled (collab := Sample.collab)
           (Sample.cache 25 false None) [0; 1] ["imgs/f0.png"; "imgs/f1.png"]
           (Sample.world Sample.raced)).
  - discriminate.
  - simpl. lia.
  - repeat (constructor; [intros c; vm_compute; discriminate |]). constructor.
Defined.

(** C3 at the two-image bucket: the first image keeps the entry [99] that
    another worker wrote. *)
Lemma existing_entry_wins_witness :
  exists names embeddings w1 w2,
    encode_image_batch (collab := Sample.collab) (Sample.cache 25 false None)
      [0; 1] ["imgs/f0.png"; "imgs/f1.png"] (Sample.world Sample.raced)
    = (w1, Ok (names, embeddings))
    /\ backend_write_batch names embeddings w1 = (w2, Ok tt)
    /\ forall i fp v,
         ["imgs/f0.png"; "imgs/f1.png"] !! i = Some fp ->
         files (Sample.world Sample.raced)
           !! (_generate_filename (Sample.cache 25 false None) fp).1
         = Some (TensorFile v) ->
         v = v ->
         embeddings !! i = Some v
         /\ files w2 !! (_generate_filename (Sample.cache 25 false None) fp).1
            = Some (TensorFile v).
Proof.
  apply (existing_entry_wins (collab := Sample.collab)
           (Sample.cache 25 false None) [0; 1] ["imgs/f0.png"; "imgs/f1.png"]
           (Sample.world Sample.raced)).
  - discriminate.
  - simpl. lia.
  - repeat (constructor; [intros c; vm_compute; discriminate |]). constructor.
Defined.

Example raced_batch_ex :
  (encode_image_batch (collab := Sample.collab) (Sample.cache 25 false None)
     [0; 1] ["imgs/f0.png"; "imgs/f1.png"] (Sample.world Sample.raced)).2
  = Ok (["vae_cache/f0.pt"; "vae_cache/f1.pt"], [99; 2]).
Proof. vm_compute. reflexivity. Qed.

(** C3 as stated fails: two workers encode the same image before either
    has flushed; when the second worker flushes, the entry of the first
    exists, and the second worker writes its own freshly computed value
    over it. *)
Lemma late_flush_overwrites_first_writer :
  let self := Sample.cache 25 false None in
  let a := encode_image_batch (collab := Sample.collab) self [5] ["imgs/f0.png"]
             Sample.worker_a in
  let b := encode_image_batch (collab := Sample.collab) self [5] ["imgs/f0.png"]
             Sample.worker_b in
  a.2 = Ok (["vae_cache/f0.pt"], [10])
  /\ b.2 = Ok (["vae_cache/f0.pt"], [14010])
  /\ let flushed_a := (backend_write_batch ["vae_cache/f0.pt"] [10] a.1).1 in
     files flushed_a !! "vae_cache/f0.pt" = Some (TensorFile 10)
     /\ let flushed_b :=
          (backend_write_batch ["vae_cache/f0.pt"] [14010]
             (Sample.sees b.1 (files flushed_a))).1 in
        files flushed_b !! "vae_cache/f0.pt" = Some (TensorFile 14010).
Proof. vm_compute. repeat split; reflexivity. Qed.

(** C10 at a three-image bucket and a partition that already holds one of
    the images: the image is appended a second time. *)
Lemma process_directory_mutates_partition_witness :
  exists self' outcome appended new,
    process_directory (collab := Sample.collab) (Sample.cache 25 false (Some ["imgs/f0.png"]))
      "imgs" (Sample.world (Sample.source 3)) = (self', outcome)
    /\ appended = secondary_scan (collab := Sample.collab)
                    (Sample.cache 25 false (Some ["imgs/f0.png"])) "imgs" (Sample.source 3)
    /\ (forall p,
          p ∈ appended <->
          exists subdir names file,
            (subdir, names) ∈ Sample.listing (Sample.source 3) image_pattern "imgs"
            /\ file ∈ names
            /\ (forall csubdir cnames cfile,
                  (csubdir, cnames) ∈ Sample.listing (Sample.source 3) "*.pt" "vae_cache" ->
                  cfile ∈ cnames ->
                  (os_path.splitext file).1
                  <> (os_path.splitext
                        (if negb (String.eqb csubdir "")
                         then os_path.join csubdir cfile else cfile)).1)
            /\ p = os_path.join subdir file)
    /\ local_unprocessed_files self' = Some new
    /\ new = rev (["imgs/f0.png"] ++ appended)
    /\ Permutation new (["imgs/f0.png"] ++ appended)
    /\ (forall p, p ∈ new <-> p ∈ ["imgs/f0.png"] \/ p ∈ appended)
    /\ length new = (length ["imgs/f0.png"] + length appended)%nat
    /\ data_backend self' = 0%nat
    /\ vae self' = 0%nat
    /\ accelerator self' = 0%nat
    /\ cache_dir self' = "vae_cache"
    /\ resolution self' = 1024
    /\ delete_problematic_images self' = false
    /\ write_batch_size self' = 25.
Proof.
  apply (process_directory_mutates_partition (collab := Sample.collab)
           (Sample.cache 25 false (Some ["imgs/f0.png"])) "imgs"
           (Sample.world (Sample.source 3)) ["imgs/f0.png"]).
  - reflexivity.
  - intros g l. symmetry. apply Permutation_rev.
Defined.

Example partition_grows_ex :
  local_unprocessed_files
    (Sample.run (Sample.cache 25 false (Some ["imgs/f0.png"]))
       (Sample.world (Sample.source 3))).1
  = Some ["imgs/f0.png"; "imgs/f2.png"; "imgs/f1.png"; "imgs/f0.png"]
  /\ local_unprocessed_files
       (Sample.run (Sample.cache 25 false (Some ["imgs/f0.png"]))
          (Sample.world Sample.broken)).1
     = Some ["imgs/bad.png"; "imgs/f0.png"]
  /\ (Sample.run (Sample.cache 25 false (Some ["imgs/f0.png"]))
        (Sample.world Sample.broken)).2.2
     = Raise ValueError.
Proof. vm_compute. repeat split; reflexivity. Qed.

(** C5 (amended) at a bucket with one truncated image, with the flag set:
    the loop ends normally on a backend without the image. *)
Lemma failure_policy_skips_item_witness :
  process_files (collab := Sample.collab) (Sample.cache 25 true (Some []))
    ["imgs/bad.png"] [] [] (Sample.world Sample.truncated)
  = process_files (collab := Sample.collab) (Sample.cache 25 true (Some []))
      [] [] []
      (if delete_problematic_images (Sample.cache 25 true (Some []))
       then mkWorld (delete "imgs/bad.png" (files (Sample.world Sample.truncated)))
              (vae_calls (Sample.world Sample.truncated))
              (flushes (Sample.world Sample.truncated))
              (rng (Sample.world Sample.truncated))
       else Sample.world Sample.truncated).
Proof.
  apply (failure_policy_skips_item (collab := Sample.collab)
           (Sample.cache 25 true (Some [])) "imgs/bad.png" [] [] []
           (Sample.world Sample.truncated) OSError).
  - vm_compute. reflexivity.
  - vm_compute. reflexivity.
  - reflexivity.
Defined.

(** C5 as stated fails: the decode step of the only image raises an
    exception that is neither an [OSError] nor a [RuntimeError]; the
    exception leaves [process_directory], and the image is still there
    although [delete_problematic_images] is set. *)
Lemma decode_error_of_another_class_propagates :
  load_pixel_values (collab := Sample.collab) 1024 "imgs/bad.png"
    (Sample.world Sample.broken)
  = (Sample.world Sample.broken, Raise ValueError)
  /\ (Sample.run (Sample.cache 25 true (Some [])) (Sample.world Sample.broken)).2.2
     = Raise ValueError
  /\ files (Sample.run (Sample.cache 25 true (Some [])) (Sample.world Sample.broken)).2.1
     !! "imgs/bad.png" = Some (ImageFile (-2)).
Proof. vm_compute. repeat split; reflexivity. Qed.

(** C4 at a three-image bucket: the first run writes three entries in one
    flush, and a second run from a fresh partition is idle. *)
Lemma second_run_is_idle_witness :
  exists self2 w2,
    process_directory (collab := Sample.collab)
      (set_local_unprocessed_files Sample.first_run.1 []) "imgs" Sample.first_run.2.1
    = (self2, (w2, Ok tt))
    /\ vae_calls w2 = vae_calls Sample.first_run.2.1
    /\ flushes w2 = flushes Sample.first_run.2.1
    /\ (forall k, pystr.endswith k ".pt" = true ->
                  files w2 !! k = files Sample.first_run.2.1 !! k)
    /\ (forall fp,
          files w2 !! (_generate_filename (Sample.cache 25 false (Some [])) fp).1
          = files Sample.first_run.2.1
              !! (_generate_filename (Sample.cache 25 false (Some [])) fp).1).
Proof.
  apply (second_run_is_idle (collab := Sample.collab)
           (Sample.cache 25 false (Some [])) "imgs" (Sample.world (Sample.source 3))
           Sample.first_run.1 Sample.first_run.2.1 [] []).
  - reflexivity.
  - intros g l. symmetry. apply Permutation_rev.
  - vm_compute. reflexivity.
  - apply (bool_decide_unpack _). vm_compute. exact I.
  - apply (bool_decide_unpack _). vm_compute. exact I.
Defined.

Example first_run_ex :
  Sample.first_run.2.2 = Ok tt
  /\ map (fun flush => flush.1) (flushes Sample.first_run.2.1)
     = [["vae_cache/f0.pt"; "vae_cache/f2.pt"; "vae_cache/f1.pt"]]
  /\ local_unprocessed_files Sample.first_run.1
     = Some ["imgs/f0.png"; "imgs/f2.png"; "imgs/f1.png"].
Proof. vm_compute. repeat split; reflexivity. Qed.

(** ** The further properties at concrete inputs *)

(** X1 at [imgs/cats/a.png]. *)
Lemma generate_filename_ignores_directory_witness :
  _generate_filename (Sample.cache 25 false None) ("imgs/cats" +:+ String "/" "a.png")
  = _generate_filename (Sample.cache 25 false None) "a.png".
Proof.
  apply (generate_filename_ignores_directory (Sample.cache 25 false None)
           "imgs/cats" "a.png").
  reflexivity.
Defined.

(** X2 at [imgs/cats/a.tar.png]: only the last extension goes. *)
Lemma generate_filename_replaces_extension_witness :
  _generate_filename (Sample.cache 25 false None) "imgs/cats/a.tar.png"
  = (os_path.join (cache_dir (Sample.cache 25 false None)) ("a.tar" +:+ ".pt"),
     "a.tar" +:+ ".pt").
Proof.
  apply (generate_filename_replaces_extension (Sample.cache 25 false None)
           "imgs/cats/a.tar.png" "a.tar" "png").
  - reflexivity.
  - reflexivity.
  - reflexivity.
Defined.

(** X3 at [imgs/.png]: the cache file is [.png.pt]. *)
Lemma generate_filename_keeps_dotfile_witness :
  _generate_filename (Sample.cache 25 false None) "imgs/.png"
  = (os_path.join (cache_dir (Sample.cache 25 false None))
       (os_path.basename "imgs/.png" +:+ ".pt"),
     os_path.basename "imgs/.png" +:+ ".pt").
Proof.
  apply (generate_filename_keeps_dotfile (Sample.cache 25 false None)
           "imgs/.png" 1 "png").
  - reflexivity.
  - reflexivity.
Defined.

Example dotfile_ex :
  _generate_filename (Sample.cache 25 false None) "imgs/.png"
  = ("vae_cache/.png.pt", ".png.pt").
Proof. reflexivity. Qed.

(** X4 at the raced bucket: the one path has a cache entry, the call
    returns it, and the VAE has been invoked all the same. *)
Lemma encode_image_batch_effects_witness :
  vae_calls (encode_image_batch (collab := Sample.collab) (Sample.cache 25 false None)
               [0] ["imgs/f0.png"] (Sample.world Sample.raced)).1
  = vae_calls (Sample.world Sample.raced) ++ [[0]].
Proof.
  apply (encode_image_batch_effects (collab := Sample.collab)
           (Sample.cache 25 false None) [0] ["imgs/f0.png"] (Sample.world Sample.raced))
    with (out := (["vae_cache/f0.pt"], [99])).
  vm_compute. reflexivity.
Defined.

(** X5 at two paths and one pixel tensor. *)
Lemma encode_image_batch_raises_witness :
  exists e,
    (encode_image_batch (collab := Sample.collab) (Sample.cache 25 false None)
       [0] ["imgs/f0.png"; "imgs/f1.png"] (Sample.world (Sample.source 2))).2 = Raise e
    /\ (["imgs/f0.png"; "imgs/f1.png"] = [] -> e = RuntimeError).
Proof.
  apply (encode_image_batch_raises (collab := Sample.collab)
           (Sample.cache 25 false None) [0] ["imgs/f0.png"; "imgs/f1.png"]
           (Sample.world (Sample.source 2))).
  right. left. simpl. lia.
Defined.

Example encode_image_batch_raises_ex :
  (encode_image_batch (collab := Sample.collab) (Sample.cache 25 false None)
     [0] ["imgs/f0.png"; "imgs/f1.png"] (Sample.world (Sample.source 2))).2
  = Raise IndexError
  /\ (encode_image_batch (collab := Sample.collab) (Sample.cache 25 false None)
        [0] [] (Sample.world (Sample.source 2))).2
     = Raise RuntimeError
  /\ (encode_image_batch (collab := Sample.collab) (Sample.cache 25 false None)
        [0] ["imgs/f0.png"] (Sample.world {["vae_cache/f0.pt" := ImageFile 1]})).2
     = Raise UnpicklingError.
Proof. vm_compute. repeat split; reflexivity. Qed.

(** X6 at the two-image bucket. *)
Lemma encode_image_batch_aligned_witness :
  ["vae_cache/f0.pt"; "vae_cache/f1.pt"]
  = map (fun fp => (_generate_filename (Sample.cache 25 false None) fp).1)
      ["imgs/f0.png"; "imgs/f1.png"]
  /\ length [99; 2] = length ["imgs/f0.png"; "imgs/f1.png"]
  /\ (length ["imgs/f0.png"; "imgs/f1.png"] <= length [0; 1])%nat.
Proof.
  apply (encode_image_batch_aligned (collab := Sample.collab)
           (Sample.cache 25 false None) [0; 1] ["imgs/f0.png"; "imgs/f1.png"]
           (Sample.world Sample.raced)
           (encode_image_batch (collab := Sample.collab) (Sample.cache 25 false None)
              [0; 1] ["imgs/f0.png"; "imgs/f1.png"] (Sample.world Sample.raced)).1).
  vm_compute. reflexivity.
Defined.

(** X7 at two images with the same base name in one batch, the pairs
    written in reverse order: the one entry [vae_cache/x.pt] holds the
    embedding of one of the two. *)
Lemma colliding_paths_share_entry_witness :
  exists (j : nat) (other : string) (e : Z),
    ["a/x.png"; "b/x.png"] !! j = Some other
    /\ (_generate_filename (Sample.cache 25 false None) other).1
       = (_generate_filename (Sample.cache 25 false None) "b/x.png").1
    /\ [6; 8] !! j = Some e
    /\ store_all [("vae_cache/x.pt", 8); ("vae_cache/x.pt", 6)].*1
         [("vae_cache/x.pt", 8); ("vae_cache/x.pt", 6)].*2
         (files (encode_image_batch (collab := Sample.collab) (Sample.cache 25 false None)
                   [3; 4] ["a/x.png"; "b/x.png"] (Sample.world ∅)).1)
       !! (_generate_filename (Sample.cache 25 false None) "b/x.png").1
       = Some (TensorFile e).
Proof.
  apply (colliding_paths_share_entry (collab := Sample.collab)
           (Sample.cache 25 false None) [3; 4] ["a/x.png"; "b/x.png"] (Sample.world ∅)
           (encode_image_batch (collab := Sample.collab) (Sample.cache 25 false None)
              [3; 4] ["a/x.png"; "b/x.png"] (Sample.world ∅)).1
           ["vae_cache/x.pt"; "vae_cache/x.pt"] [6; 8]
           [("vae_cache/x.pt", 8); ("vae_cache/x.pt", 6)] 1 "b/x.png").
  - vm_compute. reflexivity.
  - apply perm_swap.
  - reflexivity.
Defined.

Example colliding_paths_ex :
  (_generate_filename (Sample.cache 25 false None) "a/x.png").1 = "vae_cache/x.pt"
  /\ (_generate_filename (Sample.cache 25 false None) "b/x.png").1 = "vae_cache/x.pt"
  /\ files (backend_write_batch ["vae_cache/x.pt"; "vae_cache/x.pt"] [6; 8]
              (Sample.world ∅)).1
     = {["vae_cache/x.pt" := TensorFile 8]}.
Proof. vm_compute. repeat split; reflexivity. Qed.

(** X9 at the bucket left by the first run: three images, three cache
    files listed under [vae_cache], and the scan takes all three images
    again. *)
Lemma secondary_scan_skips_nothing_witness :
  secondary_scan (collab := Sample.collab) (Sample.cache 25 false (Some [])) "imgs"
    (files Sample.first_run.2.1)
  = flat_map (fun '(subdir, names) => map (os_path.join subdir) names)
      (Sample.listing (files Sample.first_run.2.1) image_pattern "imgs").
Proof.
  apply (secondary_scan_skips_nothing (collab := Sample.collab)
           (Sample.cache 25 false (Some [])) "imgs" (files Sample.first_run.2.1)).
  - intros subdir names Hin. vm_compute in Hin.
    apply list_elem_of_singleton in Hin. injection Hin as -> _. discriminate.
  - intros subdir names file Hin Hfile. vm_compute in Hin.
    apply list_elem_of_singleton in Hin. injection Hin as -> ->.
    repeat (apply elem_of_cons in Hfile as [-> | Hfile]; [reflexivity |]).
    by apply elem_of_nil in Hfile.
Defined.

Example secondary_scan_ex :
  secondary_scan (collab := Sample.collab) (Sample.cache 25 false (Some [])) "imgs"
    (files Sample.first_run.2.1)
  = ["imgs/f1.png"; "imgs/f2.png"; "imgs/f0.png"]
  /\ Sample.listing (files Sample.first_run.2.1) "*.pt" "vae_cache"
     = [("vae_cache", ["f1.pt"; "f2.pt"; "f0.pt"])].
Proof. vm_compute. split; reflexivity. Qed.

(** X10 at the bucket with one truncated image, with the flag set. *)
Lemma process_directory_touches_witness :
  touches (Sample.cache 25 true (Some []))
    (rev ([] ++ secondary_scan (collab := Sample.collab)
                  (Sample.cache 25 true (Some [])) "imgs" Sample.truncated))
    Sample.truncated
    (files (Sample.run (Sample.cache 25 true (Some [])) (Sample.world Sample.truncated)).2.1).
Proof.
  apply (process_directory_touches (collab := Sample.collab)
           (Sample.cache 25 true (Some [])) "imgs" (Sample.world Sample.truncated) []).
  reflexivity.
Defined.

(** X12 at three images and a batch size of 2: one flush of two, then the
    [IndexError]. *)
Lemma process_directory_flush_count_witness :
  exists new l,
    l = rev ([] ++ secondary_scan (collab := Sample.collab)
                     (Sample.cache 2 false (Some [])) "imgs" (Sample.source 3))
    /\ flushes (Sample.run (Sample.cache 2 false (Some [])) (Sample.world (Sample.source 3))).2.1
       = [] ++ new
    /\ (((length l mod 2 = 0)%nat
         /\ (Sample.run (Sample.cache 2 false (Some [])) (Sample.world (Sample.source 3))).2.2
            = Ok tt
         /\ (length new = length l / 2)%nat
         /\ Forall (fun flush => length flush.1 = 2%nat /\ length flush.2 = 2%nat) new
         /\ concat (map fst new)
            = map (fun fp => (_generate_filename (Sample.cache 2 false (Some [])) fp).1) l)
        \/ ((0 < length l < 2)%nat
            /\ (Sample.run (Sample.cache 2 false (Some [])) (Sample.world (Sample.source 3))).2.2
               = Ok tt
            /\ map fst new
               = [map (fun fp => (_generate_filename (Sample.cache 2 false (Some [])) fp).1) l])
        \/ ((length l mod 2 <> 0)%nat /\ (2 < length l)%nat
            /\ (Sample.run (Sample.cache 2 false (Some [])) (Sample.world (Sample.source 3))).2.2
               = Raise IndexError
            /\ (length new = length l / 2)%nat
            /\ Forall (fun flush => length flush.1 = 2%nat /\ length flush.2 = 2%nat) new
            /\ concat (map fst new)
               = map (fun fp => (_generate_filename (Sample.cache 2 false (Some [])) fp).1)
                   (firstn (length l / 2 * 2)%nat l))).
Proof.
  apply (process_directory_flush_count (collab := Sample.collab)
           (Sample.cache 2 false (Some [])) "imgs" (Sample.world (Sample.source 3)) [] 2).
  - reflexivity.
  - reflexivity.
  - lia.
  - apply (bool_decide_unpack _). vm_compute. exact I.
  - vm_compute.
    repeat (constructor; [split; [reflexivity | exact I] |]). constructor.
Defined.

Example flush_count_ex :
  (Sample.run (Sample.cache 2 false (Some [])) (Sample.world (Sample.source 3))).2.2
  = Raise IndexError
  /\ map fst (flushes (Sample.run (Sample.cache 2 false (Some []))
                         (Sample.world (Sample.source 3))).2.1)
     = [["vae_cache/f0.pt"; "vae_cache/f2.pt"]].
Proof. vm_compute. split; reflexivity. Qed.

(** X13 at the first run over three images. *)
Lemma normal_return_settles_worklist_witness :
  Forall (settled (collab := Sample.collab) (Sample.cache 25 false (Some []))
            (files Sample.first_run.2.1))
    (rev ([] ++ secondary_scan (collab := Sample.collab)
                  (Sample.cache 25 false (Some [])) "imgs" (Sample.source 3))).
Proof.
  apply (normal_return_settles_worklist (collab := Sample.collab)
           (Sample.cache 25 false (Some [])) "imgs" (Sample.world (Sample.source 3))
           Sample.first_run.1 Sample.first_run.2.1 []).
  - reflexivity.
  - vm_compute. reflexivity.
  - apply (bool_decide_unpack _). vm_compute. exact I.
Defined.
